(** * huni-portfolio: the content repository and the quiz component

    A shallow embedding of [src/lib/projects.ts] and
    [src/components/quiz.tsx], with the properties of the content
    repository (listing, truncation, lookup by slug) and of the quiz
    state machine.

    Part I holds the definitions, one module per source file.
    Part II holds the lemmas and theorems. *)

From Stdlib Require Import ZArith Lia Ascii String.
From stdpp Require Import base list strings gmap sorting.

Local Open Scope string_scope.
Local Open Scope list_scope.
Local Open Scope Z_scope.

(* ===================================================================== *)
(** * Part I: definitions *)
(* ===================================================================== *)

(** ** JavaScript values that fail: exceptions and rejected promises *)

Module Js.

(** What the modelled code can throw. *)
Inductive exn : Type :=
| TypeError       (* reading a property of [undefined] *)
| ENOENT          (* no such file or directory *)
| EACCES          (* the entry exists and cannot be read *)
| YAMLException.  (* the frontmatter parser gave up *)

(** A computation returns a value or throws; an [async] function
    resolves or rejects. *)
Inductive result (A : Type) : Type :=
| Ok (a : A)
| Throw (e : exn).
Arguments Ok {A} a.
Arguments Throw {A} e.

Definition bind {A B} (m : result A) (k : A -> result B) : result B :=
  match m with
  | Ok a => k a
  | Throw e => Throw e
  end.

(** [try { body } catch (error) { handler }] *)
Definition try_catch {A} (body : result A) (handler : exn -> result A) : result A :=
  match body with
  | Ok a => Ok a
  | Throw e => handler e
  end.

(** [xs.map(f)] for an [f] that may throw: elements are visited from
    the left and the first throw ends the call. *)
Fixpoint map_throwing {A B} (f : A -> result B) (xs : list A) : result (list B) :=
  match xs with
  | [] => Ok []
  | x :: xs' =>
      bind (f x) (fun y => bind (map_throwing f xs') (fun ys => Ok (y :: ys)))
  end.

End Js.

(** The monad operations, under stdpp's notation [x ← m; k]. *)
#[global] Instance result_ret : MRet Js.result := @Js.Ok.
#[global] Instance result_bind : MBind Js.result := fun A B k m => Js.bind m k.

(** ** [src/components/quiz.tsx] *)

Module QuizComponent.
Import Js.

(** [interface QuizQuestion] *)
Record QuizQuestion : Type := {
  question : string;
  options : list string;
  correctAnswer : Z
}.

(** The three [useState] cells of the component.  An entry of
    [userAnswers] is [None] for [null] and [Some i] for the number [i]. *)
Record State : Type := {
  currentQuestion : nat;
  userAnswers : list (option Z);
  isQuizCompleted : bool
}.

(** The initial values handed to [useState]:
    [0], [Array(questions.length).fill(null)], [false]. *)
Definition initial (questions : list QuizQuestion) : State :=
  {| currentQuestion := 0;
     userAnswers := replicate (length questions) None;
     isQuizCompleted := false |}.

(** Values recomputed on every render. *)

(** [userAnswers[currentQuestion]]: the outer [None] is [undefined]
    (index past the end of the array). *)
Definition selectedAnswer (st : State) : option (option Z) :=
  userAnswers st !! currentQuestion st.

(** [selectedAnswer !== null]; [undefined !== null] is [true]. *)
Definition showResult (st : State) : bool :=
  match selectedAnswer st with
  | Some None => false
  | _ => true
  end.

(** [currentQuestion === questions.length - 1] *)
Definition isLastQuestion (questions : list QuizQuestion) (st : State) : bool :=
  Z.of_nat (currentQuestion st) =? Z.of_nat (length questions) - 1.

(** [handleAnswer]: the write [newAnswers[currentQuestion] = index] is
    only reached when [userAnswers[currentQuestion]] is [null], hence
    inside the array, where it is stdpp's list insert. *)
Definition handleAnswer (index : Z) (st : State) : State :=
  if showResult st then st
  else {| currentQuestion := currentQuestion st;
          userAnswers := <[currentQuestion st := Some index]> (userAnswers st);
          isQuizCompleted := isQuizCompleted st |}.

(** [nextQuestion] *)
Definition nextQuestion (questions : list QuizQuestion) (st : State) : State :=
  if isLastQuestion questions st then
    {| currentQuestion := currentQuestion st;
       userAnswers := userAnswers st;
       isQuizCompleted := true |}
  else
    {| currentQuestion := S (currentQuestion st);
       userAnswers := userAnswers st;
       isQuizCompleted := isQuizCompleted st |}.

(** [answer === questions[index].correctAnswer] *)
Definition answer_is (answer : option Z) (correct : Z) : bool :=
  match answer with
  | Some a => a =? correct
  | None => false
  end.

(** [userAnswers.reduce((total, answer, index) => ..., 0)], the loop
    standing at [index] with [total] accumulated.  Reading
    [questions[index].correctAnswer] past the end of [questions]
    throws. *)
Fixpoint score_from (questions : list QuizQuestion) (index : nat)
    (answers : list (option Z)) (total : Z) : result Z :=
  match answers with
  | [] => Ok total
  | answer :: rest =>
      match questions !! index with
      | None => Throw TypeError
      | Some q =>
          score_from questions (S index) rest
            (if answer_is answer (correctAnswer q) then total + 1 else total)
      end
  end.

Definition score (questions : list QuizQuestion) (answers : list (option Z)) : result Z :=
  score_from questions 0 answers 0.

(** What [AnswerButton] receives ([option_text] is its [option]). *)
Record AnswerButton : Type := {
  option_text : string;
  index : nat;
  isSelected : bool;
  isCorrect : option bool;
  disabled : bool
}.

(** The block under the options: the verdict and the button that calls
    [nextQuestion], with its label. *)
Record Feedback : Type := {
  verdict : string;
  nextLabel : string
}.

(** The two cards the component returns. *)
Inductive View : Type :=
| CompletedCard (finalScore : Z) (outOf : nat)
| QuestionCard (text : string) (buttons : list AnswerButton)
    (feedback : option Feedback).

Definition answerButton (st : State) (q : QuizQuestion) (i : nat) (o : string) : AnswerButton :=
  {| option_text := o;
     index := i;
     isSelected :=
       match selectedAnswer st with
       | Some (Some a) => a =? Z.of_nat i
       | _ => false
       end;
     isCorrect :=
       if showResult st then Some (Z.of_nat i =? correctAnswer q) else None;
     disabled := showResult st |}.

(** One render of [Quiz] in state [st].  [currentQuestionData] is
    [questions[currentQuestion]]; reading [.question] of [undefined]
    throws. *)
Definition Quiz (questions : list QuizQuestion) (st : State) : result View :=
  if isQuizCompleted st then
    total ← score questions (userAnswers st);
    Ok (CompletedCard total (length questions))
  else
    match questions !! currentQuestion st with
    | None => Throw TypeError
    | Some currentQuestionData =>
        Ok (QuestionCard (question currentQuestionData)
              (imap (answerButton st currentQuestionData) (options currentQuestionData))
              (if showResult st then
                 Some {| verdict :=
                           if match selectedAnswer st with
                              | Some (Some a) => a =? correctAnswer currentQuestionData
                              | _ => false
                              end
                           then "Correct!" else "Incorrect. Try again!";
                         nextLabel :=
                           if isLastQuestion questions st
                           then "Finish Quiz" else "Next Question" |}
               else None))
    end.

(** The first render, on mount. *)
Definition mount (questions : list QuizQuestion) : result View :=
  Quiz questions (initial questions).

(** What the user can do to the rendered card. *)
Inductive Event : Type :=
| ClickOption (i : nat)
| ClickNext.

(** An event reaches its handler only through a control of the card
    that was rendered: a disabled button does not fire, the button
    bound to [nextQuestion] exists only under [showResult], and the
    completed card has no control. *)
Definition dispatch (questions : list QuizQuestion) (st : State) (ev : Event) : State :=
  match Quiz questions st with
  | Ok (QuestionCard _ buttons feedback) =>
      match ev with
      | ClickOption i =>
          match buttons !! i with
          | Some b => if disabled b then st else handleAnswer (Z.of_nat (index b)) st
          | None => st
          end
      | ClickNext =>
          match feedback with
          | Some _ => nextQuestion questions st
          | None => st
          end
      end
  | _ => st
  end.

Definition run (questions : list QuizQuestion) (evs : list Event) : State :=
  foldl (dispatch questions) (initial questions) evs.

(** The states the spec names. *)
Inductive Phase : Type :=
| InProgress (currentIndex : nat)
| Completed.

Definition phase (st : State) : Phase :=
  if isQuizCompleted st then Completed else InProgress (currentQuestion st).

(** The score in the spec's words: the number of indices whose
    recorded answer equals the correct-option index of the question at
    that index. *)
Definition correct_at (questions : list QuizQuestion) (answers : list (option Z))
    (i : nat) : bool :=
  match answers !! i, questions !! i with
  | Some (Some a), Some q => a =? correctAnswer q
  | _, _ => false
  end.

Definition count_correct (questions : list QuizQuestion) (answers : list (option Z)) : Z :=
  Z.of_nat (length (List.filter (correct_at questions answers)
                      (seq 0 (length questions)))).

(** A definition the spec calls malformed: no question, a question
    without options, or a correct index outside the options. *)
Definition in_range (q : QuizQuestion) : bool :=
  (0 <=? correctAnswer q) && (correctAnswer q <? Z.of_nat (length (options q))).

Definition malformed (questions : list QuizQuestion) : bool :=
  match questions with
  | [] => true
  | _ => negb (forallb in_range questions)
  end.

End QuizComponent.

(** ** [src/lib/projects.ts] *)

Module Projects.
Import Js.

(** *** The runtime the module calls into *)

(** Two functions come from outside the repository: the frontmatter
    parser [matter] of the gray-matter package and the date parser
    behind [new Date(string)].  A time value is [Some t] (milliseconds
    since the epoch) or [None] for [NaN], the time value of an
    [Invalid Date]. *)
Class Runtime : Type := {
  matter : string -> result (gmap string string * string);
  Date_parse : string -> option Z
}.

(** *** The file system under [rootDirectory] *)

(** An entry of [content/projects]: a file with its text, or an entry
    [readFileSync] fails on (a directory, a file without read
    permission). *)
Inductive entry : Type :=
| File (contents : string)
| Unreadable.

(** [content/projects] as [readdirSync] lists it; [None] when the
    directory does not exist.  Names are single path segments. *)
Record FileSystem : Type := {
  rootDirectory : option (list (string * entry))
}.

Fixpoint find_entry (name : string) (es : list (string * entry)) : option entry :=
  match es with
  | [] => None
  | (n, e) :: es' => if String.eqb n name then Some e else find_entry name es'
  end.

(** [fs.readdirSync(rootDirectory)] *)
Definition readdirSync (fs : FileSystem) : result (list string) :=
  match rootDirectory fs with
  | None => Throw ENOENT
  | Some es => Ok (es.*1)
  end.

(** [fs.readFileSync(path.join(rootDirectory, name), { encoding: 'utf-8' })] *)
Definition readFileSync (fs : FileSystem) (name : string) : result string :=
  match rootDirectory fs with
  | None => Throw ENOENT
  | Some es =>
      match find_entry name es with
      | None => Throw ENOENT
      | Some Unreadable => Throw EACCES
      | Some (File contents) => Ok contents
      end
  end.

(** *** Records *)

(** [ProjectMetaData]: the object [{ ...data, slug }], a map from field
    name to scalar. *)
Record Project : Type := {
  metadata : gmap string string;
  content : string
}.

(** [fileName.replace(/\.mdx$/, '')]: the pattern matches where the rest
    of the name is exactly [.mdx]; the match is cut out. *)
Fixpoint replace_mdx_end (fileName : string) : string :=
  if String.eqb fileName ".mdx" then EmptyString
  else match fileName with
       | EmptyString => EmptyString
       | String c rest => String c (replace_mdx_end rest)
       end.

(** *** [Array.prototype.sort] *)

(** The sort of the engine under Node.js (V8), as it runs on an array
    shorter than 64 elements: the array is one run.  [CountAndMakeRun]
    takes the longest run from the front, strictly descending or
    non-descending in the order of [comparefn], and reverses a
    descending one; [BinaryInsertionSort] places each remaining element
    by binary search in the sorted front.  (From 64 elements on the
    engine cuts several such runs and merges them; the model keeps one
    run at every length.) *)
Section Sort.
Context {A : Type} (comparefn : A -> A -> Z).

(** The [for] loop of [CountAndMakeRun]: the elements after
    [previous] that continue the run, and the rest. *)
Fixpoint extend_run (isDescending : bool) (previous : A) (rest : list A)
    : list A * list A :=
  match rest with
  | [] => ([], [])
  | current :: rest' =>
      let order := comparefn current previous in
      if (if isDescending then 0 <=? order else order <? 0) then ([], rest)
      else let '(run, tl) := extend_run isDescending current rest' in
           (current :: run, tl)
  end.


Definition CountAndMakeRun (xs : list A) : list A * list A :=
  match xs with
  | low :: high :: rest =>
      let isDescending := comparefn high low <? 0 in
      let '(run, tl) := extend_run isDescending high rest in
      let whole := low :: high :: run in
      (if isDescending then reverse whole else whole, tl)
  | _ => (xs, [])
  end.

(** The [while (left < right)] loop of [BinaryInsertionSort]. *)
Fixpoint find_slot (fuel : nat) (pivot : A) (sorted : list A)
    (left right : nat) : nat :=
  match fuel with
  | O => left
  | S fuel' =>
      if (left <? right)%nat then
        let mid := (left + (right - left) `div` 2)%nat in
        match sorted !! mid with
        | Some x =>
            if comparefn pivot x <? 0
            then find_slot fuel' pivot sorted left mid
            else find_slot fuel' pivot sorted (S mid) right
        | None => left
        end
      else left
  end.

(** One round of the outer loop: [pivot] moves to its slot, the
    elements from there on shift one place right. *)
Definition insert_pivot (sorted : list A) (pivot : A) : list A :=
  let left := find_slot (length sorted) pivot sorted 0 (length sorted) in
  take left sorted ++ pivot :: drop left sorted.

Definition BinaryInsertionSort (sorted rest : list A) : list A :=
  foldl insert_pivot sorted rest.

Definition Array_sort (xs : list A) : list A :=
  if (length xs <? 2)%nat then xs
  else let '(run, rest) := CountAndMakeRun xs in
       BinaryInsertionSort run rest.

End Sort.


(** [xs.slice(0, end)] for an integer [end]: a negative [end] counts
    from the back. *)
Definition slice0 {A} (xs : list A) (last : Z) : list A :=
  let len := Z.of_nat (length xs) in
  let final := if last <? 0 then Z.max (len + last) 0 else Z.min last len in
  take (Z.to_nat final) xs.

Section WithRuntime.
Context `{Runtime}.

(** [getProjectMetadata] *)
Definition getProjectMetadata (fs : FileSystem) (fileName : string)
    : result (gmap string string) :=
  let slug := replace_mdx_end fileName in
  fileContents ← readFileSync fs fileName;
  '(data, _) ← matter fileContents;
  Ok (<["slug" := slug]> data).

(** [getProjectBySlug]; [None] is [null]. *)
Definition getProjectBySlug (fs : FileSystem) (slug : string)
    : result (option Project) :=
  try_catch
    (fileContents ← readFileSync fs (slug +:+ ".mdx");
     '(data, content) ← matter fileContents;
     Ok (Some {| metadata := <["slug" := slug]> data; content := content |}))
    (fun error => Ok None).

(** [new Date(a.date ?? '')], as its time value. *)
Definition date_of (a : gmap string string) : option Z :=
  Date_parse (default EmptyString (a !! "date")).

(** [<] on two [Date]s compares their time values; a comparison
    with [NaN] is [false]. *)
Definition Date_lt (x y : option Z) : bool :=
  match x, y with
  | Some tx, Some ty => tx <? ty
  | _, _ => false
  end.



(** The comparator handed to [sort]. *)
Definition by_date (a b : gmap string string) : Z :=
  if Date_lt (date_of a) (date_of b) then 1 else -1.

(** [getProjects]; [limit] is [None] when the argument is left out.
    [if (limit)] takes the branch for a number that is not [0]. *)
Definition getProjects (fs : FileSystem) (limit : option Z)
    : result (list (gmap string string)) :=
  files ← readdirSync fs;
  unsorted ← map_throwing (getProjectMetadata fs) files;
  let projects := Array_sort by_date unsorted in
  match limit with
  | Some k => if k =? 0 then Ok projects else Ok (slice0 projects k)
  | None => Ok projects
  end.

End WithRuntime.

End Projects.

(** ** The frontmatter parser *)

Module Frontmatter.

Definition newline : ascii := "010"%char.
Definition nl : string := String newline EmptyString.
Definition dquote : ascii := "034"%char.

(** The text cut at every line feed; the pieces hold none. *)
Fixpoint lines (s : string) : list string :=
  match s with
  | EmptyString => [EmptyString]
  | String c rest =>
      if Ascii.eqb c newline then EmptyString :: lines rest
      else match lines rest with
           | l :: ls => String c l :: ls
           | [] => [String c EmptyString]
           end
  end.

Fixpoint unlines (ls : list string) : string :=
  match ls with
  | [] => EmptyString
  | l :: ls' =>
      match ls' with
      | [] => l
      | _ :: _ => l +:+ nl +:+ unlines ls'
      end
  end.

Fixpoint occurs (c : ascii) (s : string) : bool :=
  match s with
  | EmptyString => false
  | String d rest => Ascii.eqb d c || occurs c rest
  end.

(** The line cut at its first colon. *)
Fixpoint split_colon (s : string) : option (string * string) :=
  match s with
  | EmptyString => None
  | String c rest =>
      if Ascii.eqb c ":" then Some (EmptyString, rest)
      else match split_colon rest with
           | Some (key, value) => Some (String c key, value)
           | None => None
           end
  end.

Definition is_quote (c : ascii) : bool := Ascii.eqb c "'" || Ascii.eqb c dquote.

(** [s] without its last character, when that is the quote [q]. *)
Fixpoint close_quote (q : ascii) (s : string) : option string :=
  match s with
  | EmptyString => None
  | String c rest =>
      match rest with
      | EmptyString => if Ascii.eqb c q then Some EmptyString else None
      | String _ _ =>
          match close_quote q rest with
          | Some v => Some (String c v)
          | None => None
          end
      end
  end.

(** A scalar between two equal quotes is the text between them; any
    other scalar is itself. *)
Definition unquote (raw : string) : string :=
  match raw with
  | EmptyString => EmptyString
  | String q rest =>
      if is_quote q then
        match close_quote q rest with
        | Some v => v
        | None => raw
        end
      else raw
  end.

(** One [key: value] line. *)
Definition parse_pair (line : string) : option (string * string) :=
  match split_colon line with
  | Some (key, String " " raw) =>
      if String.eqb key EmptyString then None else Some (key, unquote raw)
  | _ => None
  end.

(** The lines after the opening delimiter: pairs up to the closing
    delimiter, and the lines after it. *)
Fixpoint parse_block (ls : list string)
    : option (list (string * string) * list string) :=
  match ls with
  | [] => None
  | l :: rest =>
      if String.eqb l "---" then Some ([], rest)
      else match parse_pair l with
           | None => None
           | Some kv =>
               match parse_block rest with
               | Some (kvs, body) => Some (kv :: kvs, body)
               | None => None
               end
           end
  end.

(** Modelled from the spec: the frontmatter parser [matter], which the
    repository imports from the gray-matter package and whose code is
    not part of it.  After the spec's sections 4.2 and 6: a leading
    block opens and closes with a line that is exactly [---], holds one
    [key: value] pair per line between them, a value being a quoted or
    an unquoted scalar read as a string; everything after the closing
    delimiter is the body.  With no such leading block the metadata is
    empty and the body is the whole text; the parser never fails. *)
Definition matter (text : string) : gmap string string * string :=
  match lines text with
  | first :: rest =>
      if String.eqb first "---" then
        match parse_block rest with
        | Some (fields, body) => (list_to_map fields, unlines body)
        | None => (∅, text)
        end
      else (∅, text)
  | [] => (∅, text)
  end.

(** *** The block format, written out *)

Inductive scalar : Type :=
| Plain (v : string)
| Quoted (q : ascii) (v : string).

Definition scalar_text (sc : scalar) : string :=
  match sc with
  | Plain v => v
  | Quoted q v => String q (v +:+ String q EmptyString)
  end.

Definition scalar_value (sc : scalar) : string :=
  match sc with
  | Plain v => v
  | Quoted _ v => v
  end.

Definition pair_line (kv : string * scalar) : string :=
  kv.1 +:+ ": " +:+ scalar_text kv.2.

Fixpoint pair_lines (fields : list (string * scalar)) : string :=
  match fields with
  | [] => EmptyString
  | kv :: fields' => pair_line kv +:+ nl +:+ pair_lines fields'
  end.

(** A document that starts with a metadata block: the block, and after
    its closing delimiter the end of the text or a line feed and the
    body. *)
Definition document (fields : list (string * scalar)) (body : option string) : string :=
  "---" +:+ nl +:+ pair_lines fields +:+ "---" +:+
  match body with
  | Some b => nl +:+ b
  | None => EmptyString
  end.

Definition well_formed_scalar (sc : scalar) : Prop :=
  occurs newline (scalar_value sc) = false ∧
  match sc with
  | Plain v => unquote v = v
  | Quoted q _ => is_quote q = true
  end.

Definition well_formed_field (kv : string * scalar) : Prop :=
  kv.1 ≠ EmptyString ∧ occurs ":" kv.1 = false ∧ occurs newline kv.1 = false ∧
  well_formed_scalar kv.2.

Definition field_values (fields : list (string * scalar)) : list (string * string) :=
  prod_map id scalar_value <$> fields.

End Frontmatter.

(** ** Dates *)

Module IsoDate.

Definition digit (c : ascii) : option Z :=
  let n := Z.of_nat (nat_of_ascii c) in
  if (48 <=? n) && (n <=? 57) then Some (n - 48) else None.

(** Days from 1970-01-01 to the given day of the proleptic Gregorian
    calendar. *)
Definition days_from_civil (y m d : Z) : Z :=
  let y' := if m <=? 2 then y - 1 else y in
  let era := y' `div` 400 in
  let yoe := y' - era * 400 in
  let mp := (m + 9) `mod` 12 in
  let doy := (153 * mp + 2) `div` 5 + d - 1 in
  let doe := yoe * 365 + yoe `div` 4 - yoe `div` 100 + doy in
  era * 146097 + doe - 719468.

(** The date-only form [YYYY-MM-DD] of the ECMAScript date-time string
    format, read as midnight UTC, the form every date of the
    repository's content is written in.  The empty string gives [NaN];
    so does, in this parser, every other string outside the form. *)
Definition parse (s : string) : option Z :=
  match list_ascii_of_string s with
  | [y1; y2; y3; y4; dash1; m1; m2; dash2; d1; d2] =>
      if Ascii.eqb dash1 "-" && Ascii.eqb dash2 "-" then
        a ← digit y1; b ← digit y2; c ← digit y3; d ← digit y4;
        e ← digit m1; f ← digit m2; g ← digit d1; h ← digit d2;
        let year := 1000 * a + 100 * b + 10 * c + d in
        let month := 10 * e + f in
        let day := 10 * g + h in
        if (1 <=? month) && (month <=? 12) && (1 <=? day) && (day <=? 31)
        then Some (days_from_civil year month day * 86400000)
        else None
      else None
  | _ => None
  end.

End IsoDate.

(** The runtime the examples run on: the frontmatter parser above,
    which never throws, and the date-only parser. *)
#[global] Instance example_runtime : Projects.Runtime := {|
  Projects.matter text := Js.Ok (Frontmatter.matter text);
  Projects.Date_parse := IsoDate.parse
|}.

(** ** Fixtures *)

Module Fixtures.
Import QuizComponent.

(** Two questions of four options, correct indices 0 and 2. *)
Definition first_question : QuizQuestion :=
  {| question := "What does SQL stand for?";
     options := ["Structured Query Language"; "Simple Question Language";
                 "Structured Question Language"; "Simple Query Language"];
     correctAnswer := 0 |}.

Definition second_question : QuizQuestion :=
  {| question := "Which SQL command is used to retrieve data from a database?";
     options := ["GET"; "FETCH"; "SELECT"; "RETRIEVE"];
     correctAnswer := 2 |}.

Definition two_questions : list QuizQuestion := [first_question; second_question].

Definition no_options : list QuizQuestion :=
  [ {| question := "Pick one"; options := []; correctAnswer := 0 |} ].

Definition index_out_of_range : list QuizQuestion :=
  [ {| question := "Pick one"; options := ["yes"; "no"]; correctAnswer := 5 |} ].

(** [content/projects] with two documents; the frontmatter of the first
    declares a slug of its own. *)
Definition cryptoverse : string :=
  Frontmatter.document
    [("title", Frontmatter.Quoted "'" "Cryptoverse");
     ("date", Frontmatter.Quoted "'" "2023-01-12");
     ("slug", Frontmatter.Plain "crypto-app")]
    (Some "# Introducing My Crypto App").

Definition undated : string :=
  Frontmatter.document
    [("title", Frontmatter.Quoted "'" "Work in progress")]
    (Some "Soon.").

Definition dated (title date : string) : string :=
  Frontmatter.document
    [("title", Frontmatter.Plain title); ("date", Frontmatter.Quoted "'" date)]
    (Some "Text.").

Definition two_projects : Projects.FileSystem :=
  {| Projects.rootDirectory :=
       Some [("cryptoverse.mdx", Projects.File cryptoverse);
             ("undated.mdx", Projects.File undated)] |}.

Definition four_projects : Projects.FileSystem :=
  {| Projects.rootDirectory :=
       Some [("alpha.mdx", Projects.File (dated "Alpha" "2024-03-01"));
             ("beta.mdx", Projects.File (dated "Beta" "2025-01-06"));
             ("delta.mdx", Projects.File (dated "Delta" "2024-03-01"));
             ("gamma.mdx", Projects.File (dated "Gamma" "2023-01-12"))] |}.

(** [content/projects] does not exist. *)
Definition no_directory : Projects.FileSystem :=
  {| Projects.rootDirectory := None |}.

(** [content/projects/locked.mdx] exists and cannot be read. *)
Definition locked_document : Projects.FileSystem :=
  {| Projects.rootDirectory := Some [("locked.mdx", Projects.Unreadable)] |}.

(** The [slug] fields of a listing, for reading results. *)
Definition slugs (ps : list (gmap string string)) : list (option string) :=
  (fun p : gmap string string => p !! "slug") <$> ps.

End Fixtures.

(** ** [src/app/projects/[slug]/page.tsx] *)

Module ProjectPage.
Import Js Projects.

(** What the page hands to its elements: the hero image when [image] is
    truthy (a string that is not empty), [title] for the heading,
    [title || ''] for the image's [alt], [author], the argument
    [date ?? ''] of [formatDate], and [content] as the [source] of
    [MDXContent]. *)
Record View : Type := {
  hero : option string;
  heading : option string;
  alt : string;
  byline_author : option string;
  byline_date : string;
  source : string
}.

(** The page is rendered, or [notFound()] ends the render. *)
Inductive Outcome : Type :=
| NotFound
| Page (view : View).

(** [x || ''] and the test [x && ...] on an optional string: [undefined]
    and the empty string are falsy. *)
Definition truthy_string (x : option string) : option string :=
  match x with
  | Some EmptyString => None
  | _ => x
  end.

Section WithRuntime.
Context `{Runtime}.

(** [generateStaticParams]: the [slug] of every listed project; [None]
    is [undefined]. *)
Definition generateStaticParams (fs : FileSystem) : result (list (option string)) :=
  bind (getProjects fs None) (fun projects : list (gmap string string) =>
    Ok ((fun project : gmap string string => project !! "slug") <$> projects)).

(** The page component [Project]. *)
Definition Project (fs : FileSystem) (slug : string) : result Outcome :=
  bind (getProjectBySlug fs slug) (fun project : option Projects.Project =>
  match project with
  | None => Ok NotFound
  | Some p =>
      let title := metadata p !! "title" in
      Ok (Page {| hero := truthy_string (metadata p !! "image");
                  heading := title;
                  alt := default EmptyString (truthy_string title);
                  byline_author := metadata p !! "author";
                  byline_date := default EmptyString (metadata p !! "date");
                  source := content p |})
  end).

End WithRuntime.

End ProjectPage.

(** ** [AnswerButton] of [src/components/quiz.tsx] *)

Module AnswerButtonView.
Import QuizComponent.

(** [isSelected ? (isCorrect ? 'success' : 'destructive') : 'outline'];
    [isCorrect] is a boolean or [null], and [null] is falsy. *)
Definition variant (b : AnswerButton) : string :=
  if isSelected b then
    match isCorrect b with
    | Some true => "success"
    | _ => "destructive"
    end
  else "outline".

(** The icon after the option text, shown on the selected button only. *)
Inductive Icon : Type :=
| CheckIcon
| CrossCircledIcon.

Definition icon (b : AnswerButton) : option Icon :=
  if isSelected b then
    match isCorrect b with
    | Some true => Some CheckIcon
    | _ => Some CrossCircledIcon
    end
  else None.

End AnswerButtonView.

(** ** [src/components/mdx-content.tsx] *)

Module MdxContent.

(** The components of the registry, and whatever a caller brings. *)
Inductive Component : Type :=
| Code
| Counter
| Alert
| Quiz
| ExpandableSection
| Card
| CardContent
| CardDescription
| CardFooter
| CardHeader
| CardTitle
| Custom (name : string).

(** [const components = { code: Code, Counter, Alert, ... }] *)
Definition components : gmap string Component :=
  list_to_map
    [("code", Code); ("Counter", Counter); ("Alert", Alert); ("Quiz", Quiz);
     ("ExpandableSection", ExpandableSection); ("Card", Card);
     ("CardContent", CardContent); ("CardDescription", CardDescription);
     ("CardFooter", CardFooter); ("CardHeader", CardHeader);
     ("CardTitle", CardTitle)].

(** The two props of [MDXRemoteProps] the component looks at. *)
Record Props : Type := {
  source : string;
  props_components : option (gmap string Component)
}.

(** What [MDXRemote] receives: [{...props}] with [components] replaced
    by [{ ...components, ...(props.components || {}) }].  In a spread
    the later source wins, which is the left side of stdpp's union. *)
Definition MDXContent (props : Props) : Props :=
  {| source := source props;
     props_components :=
       Some (default ∅ (props_components props) ∪ components) |}.

(** The component a name resolves to in what [MDXRemote] receives. *)
Definition resolve (props : Props) (name : string) : option Component :=
  default ∅ (props_components (MDXContent props)) !! name.

End MdxContent.

(** ** [src/components/alert.tsx] *)

Module AlertComponent.

(** [getAlertStyle], on the [type] prop as it arrives; [None] is a prop
    left out, which the default [type = 'info'] fills in. *)
Definition getAlertStyle (type : option string) : string :=
  let type := default "info" type in
  if String.eqb type "success" then "bg-green-100 border-green-500 text-green-700"
  else if String.eqb type "warning" then "bg-yellow-100 border-yellow-500 text-yellow-700"
  else if String.eqb type "error" then "bg-red-100 border-red-500 text-red-700"
  else "bg-blue-100 border-blue-500 text-blue-700".

Inductive Icon : Type :=
| InfoCircledIcon
| CheckCircledIcon
| ExclamationTriangleIcon
| CrossCircledIcon.

(** [getIcon] *)
Definition getIcon (type : option string) : Icon :=
  let type := default "info" type in
  if String.eqb type "success" then CheckCircledIcon
  else if String.eqb type "warning" then ExclamationTriangleIcon
  else if String.eqb type "error" then CrossCircledIcon
  else InfoCircledIcon.

(** The four severities, each with its colours and its icon. *)
Definition severities : list (string * (string * Icon)) :=
  [("info", ("bg-blue-100 border-blue-500 text-blue-700", InfoCircledIcon));
   ("success", ("bg-green-100 border-green-500 text-green-700", CheckCircledIcon));
   ("warning", ("bg-yellow-100 border-yellow-500 text-yellow-700", ExclamationTriangleIcon));
   ("error", ("bg-red-100 border-red-500 text-red-700", CrossCircledIcon))].

End AlertComponent.

(** ** [src/components/posts-with-search.tsx] *)

Module PostsWithSearch.


Section WithLowerCase.
(** [String.prototype.toLowerCase], of the engine. *)
Context (toLowerCase : string -> string).





End WithLowerCase.

End PostsWithSearch.

(** ** [src/lib/actions.ts] *)

Module Actions.

(** [ContactFormInputs] *)
Record ContactFormInputs : Type := {
  name : string;
  email : string;
  message : string
}.

(** The argument of [resend.emails.send]; [react] holds the props given
    to [ContactFormEmail]. *)
Record Email : Type := {
  from : string;
  to : list string;
  cc : list string;
  subject : string;
  text : string;
  react : ContactFormInputs
}.

Section WithServices.
(** The formatted errors of the schema, the [data] and [error] of the
    mail service's answer, and the values it may throw. *)
Context {FormErrors SendData SendError Thrown : Type}.

(** [ContactFormSchema.safeParse(data)] *)
Inductive Validation : Type :=
| Valid (data : ContactFormInputs)
| Invalid (formatted : FormErrors).

(** The outcome of [await resend.emails.send(...)]: it resolves to
    [{ data, error }], each possibly [null], or it rejects. *)
Inductive Response : Type :=
| Resolved (data : option SendData) (error : option SendError)
| Rejected (value : Thrown).

(** What the [catch] can hold: the [Error] thrown two lines above, or
    what the service threw. *)
Inductive Caught : Type :=
| FailedToSendEmail
| FromService (value : Thrown).

(** The object [sendEmail] resolves to. *)
Inductive ActionResult : Type :=
| ValidationError (formatted : FormErrors)
| CaughtError (error : Caught)
| Success.

Context (safeParse : ContactFormInputs -> Validation).
Context (send : Email -> Response).

Definition newline : string := String "010"%char EmptyString.

(** The mail built from the parsed data. *)
Definition email_of (data : ContactFormInputs) : Email :=
  {| from := "eriknguyen@huni-portfolio.site";
     to := [email data];
     cc := ["erikng3006@gmail.com"];
     subject := "Contact form submission";
     text := "Name: " +:+ name data +:+ newline +:+
             "Email: " +:+ email data +:+ newline +:+
             "Message: " +:+ message data;
     react := data |}.

(** [sendEmail]: the result, and the mails handed to the service. *)
Definition sendEmail (data : ContactFormInputs) : ActionResult * list Email :=
  match safeParse data with
  | Invalid formatted => (ValidationError formatted, [])
  | Valid parsed =>
      let mail := email_of parsed in
      (match send mail with
       | Resolved (Some _) None => Success
       | Resolved _ _ => CaughtError FailedToSendEmail
       | Rejected value => CaughtError (FromService value)
       end, [mail])
  end.

End WithServices.

End Actions.

(** ** The states of the quiz *)

Module QuizInvariant.
Import QuizComponent.

(** Question [i] has its answer. *)
Definition answered (st : State) (i : nat) : Prop :=
  exists a, userAnswers st !! i = Some (Some a).

(** What holds of the state between two events: one answer slot per
    question, the current question is one of the questions, every
    question before it has its answer, and a completed quiz stands on
    the last question, answered. *)
Definition invariant (questions : list QuizQuestion) (st : State) : Prop :=
  length (userAnswers st) = length questions /\
  (currentQuestion st < length questions)%nat /\
  (forall i, (i < currentQuestion st)%nat -> answered st i) /\
  (isQuizCompleted st = true ->
   S (currentQuestion st) = length questions /\ answered st (currentQuestion st)).

End QuizInvariant.

(** ** More fixtures *)

Module Samples.

(** A readable entry between two documents cannot be read. *)
Definition one_locked : Projects.FileSystem :=
  {| Projects.rootDirectory :=
       Some [("alpha.mdx", Projects.File (Fixtures.dated "Alpha" "2024-03-01"));
             ("locked.mdx", Projects.Unreadable);
             ("zeta.mdx", Projects.File (Fixtures.dated "Zeta" "2022-05-05"))] |}.

(** Three documents, none with a date. *)
Definition no_dates : Projects.FileSystem :=
  {| Projects.rootDirectory :=
       Some [("first.mdx", Projects.File Fixtures.undated);
             ("second.mdx", Projects.File Fixtures.undated);
             ("third.mdx", Projects.File Fixtures.undated)] |}.

(** A document and a file that is no [.mdx]. *)
Definition with_notes : Projects.FileSystem :=
  {| Projects.rootDirectory :=
       Some [("alpha.mdx", Projects.File (Fixtures.dated "Alpha" "2024-03-01"));
             ("notes.txt", Projects.File Fixtures.undated)] |}.





(** A schema that asks for an address, and a service that accepts. *)
Definition visitor : Actions.ContactFormInputs :=
  {| Actions.name := "Ann"; Actions.email := "ann@example.com";
     Actions.message := "Hello" |}.

Definition needs_email (data : Actions.ContactFormInputs)
    : @Actions.Validation string :=
  if String.eqb (Actions.email data) EmptyString
  then Actions.Invalid "Email is required"
  else Actions.Valid data.

Definition accepts (mail : Actions.Email) : @Actions.Response string string string :=
  Actions.Resolved (Some "queued") None.

End Samples.

(* ===================================================================== *)
(** * Part II: properties *)
(* ===================================================================== *)

(** ** The quiz *)

Section QuizFacts.
Import Js QuizComponent.

Implicit Types (questions : list QuizQuestion) (st : State).

Lemma showResult_unanswered st :
  selectedAnswer st = Some None -> showResult st = false.
Proof. unfold showResult. intros ->. reflexivity. Qed.

Lemma showResult_answered st a :
  selectedAnswer st = Some (Some a) -> showResult st = true.
Proof. unfold showResult. intros ->. reflexivity. Qed.

Lemma unanswered_in_range st :
  showResult st = false -> (currentQuestion st < length (userAnswers st))%nat.
Proof.
  unfold showResult, selectedAnswer. intros Hs.
  destruct (userAnswers st !! currentQuestion st) as [a|] eqn:E; [|discriminate].
  eapply lookup_lt_Some, E.
Qed.

(** Once [handleAnswer] has run, the current question shows its result. *)
Lemma showResult_handleAnswer st i : showResult (handleAnswer i st) = true.
Proof.
  unfold handleAnswer. destruct (showResult st) eqn:E; [exact E|].
  pose proof (unanswered_in_range _ E) as Hlt.
  unfold showResult, selectedAnswer. simpl.
  rewrite list_lookup_insert_eq by exact Hlt. reflexivity.
Qed.

Lemma handleAnswer_twice st i j :
  handleAnswer j (handleAnswer i st) = handleAnswer i st.
Proof.
  unfold handleAnswer at 1. rewrite showResult_handleAnswer. reflexivity.
Qed.

Lemma handleAnswer_length st i :
  length (userAnswers (handleAnswer i st)) = length (userAnswers st).
Proof.
  unfold handleAnswer. destruct (showResult st); simpl; [reflexivity|].
  apply length_insert.
Qed.

Lemma nextQuestion_length questions st :
  length (userAnswers (nextQuestion questions st)) = length (userAnswers st).
Proof. unfold nextQuestion. destruct (isLastQuestion questions st); reflexivity. Qed.

Lemma dispatch_length questions st ev :
  length (userAnswers (dispatch questions st ev)) = length (userAnswers st).
Proof.
  unfold dispatch.
  destruct (Quiz questions st) as [[|text buttons feedback]|]; try reflexivity.
  destruct ev as [i|].
  - destruct (buttons !! i) as [b|]; [|reflexivity].
    destruct (disabled b); [reflexivity|apply handleAnswer_length].
  - destruct feedback; [apply nextQuestion_length|reflexivity].
Qed.

(** Every state a run of events reaches keeps one answer slot per
    question. *)
Lemma run_length questions evs :
  length (userAnswers (run questions evs)) = length questions.
Proof.
  unfold run.
  assert (Hinit : length (userAnswers (initial questions)) = length questions)
    by (simpl; apply length_replicate).
  revert Hinit. generalize (initial questions).
  induction evs as [|ev evs IH]; intros st Hst; simpl; [exact Hst|].
  apply IH. rewrite dispatch_length. exact Hst.
Qed.

(** The [reduce] loop counts the correct answers among the indices it
    still has to visit. *)
Lemma score_from_count questions answers rest index total :
  (index + length rest = length questions)%nat ->
  (forall i, rest !! i = answers !! (index + i)%nat) ->
  score_from questions index rest total =
    Ok (total + Z.of_nat (length (List.filter (correct_at questions answers)
                                    (seq index (length rest))))).
Proof.
  revert index total.
  induction rest as [|answer rest IH]; intros index total Hlen Hrest; simpl.
  - f_equal. lia.
  - simpl in Hlen.
    destruct (questions !! index) as [q|] eqn:Hq.
    2:{ apply lookup_ge_None in Hq. lia. }
    rewrite (IH (S index)).
    2:{ lia. }
    2:{ intros i. specialize (Hrest (S i)). simpl in Hrest.
        rewrite Hrest. f_equal. lia. }
    f_equal.
    assert (Hc : correct_at questions answers index = answer_is answer (correctAnswer q)).
    { unfold correct_at. specialize (Hrest O). simpl in Hrest.
      rewrite Nat.add_0_r in Hrest. rewrite <- Hrest, Hq.
      destruct answer; reflexivity. }
    rewrite Hc. destruct (answer_is answer (correctAnswer q)); simpl; lia.
Qed.

Lemma score_count questions answers :
  length answers = length questions ->
  score questions answers = Ok (count_correct questions answers).
Proof.
  intros Hlen. unfold score, count_correct.
  rewrite (score_from_count questions answers answers 0 0).
  - rewrite Hlen. reflexivity.
  - simpl. exact Hlen.
  - intros i. reflexivity.
Qed.

Lemma button_disabled st q bs i b :
  bs = imap (answerButton st q) (options q) ->
  bs !! i = Some b -> disabled b = showResult st /\ index b = i.
Proof.
  intros -> Hb. rewrite list_lookup_imap in Hb.
  destruct (options q !! i) as [o|]; simpl in Hb; [|discriminate].
  injection Hb as <-. split; reflexivity.
Qed.

(** In a state that shows a result, no click on an option changes
    anything. *)
Lemma dispatch_option_answered questions st i :
  showResult st = true -> dispatch questions st (ClickOption i) = st.
Proof.
  intros Hshow. unfold dispatch, Quiz.
  destruct (isQuizCompleted st).
  - destruct (score questions (userAnswers st)); reflexivity.
  - destruct (questions !! currentQuestion st) as [q|]; [|reflexivity].
    destruct (imap (answerButton st q) (options q) !! i) as [b|] eqn:Hb; [|reflexivity].
    destruct (button_disabled st q _ i b eq_refl Hb) as [-> _].
    rewrite Hshow. reflexivity.
Qed.

(** *** C3 *)

(** C3, as the spec states it, fails: at the first question of a quiz
    of two, nothing answered, [nextQuestion] moves on to the second
    question. *)
Lemma nextQuestion_unanswered_counterexample :
  let st := initial Fixtures.two_questions in
  phase st = InProgress 0 /\ selectedAnswer st = Some None /\
  phase (nextQuestion Fixtures.two_questions st) = InProgress 1 /\
  nextQuestion Fixtures.two_questions st <> st.
Proof. repeat split; try reflexivity. discriminate. Qed.

(** C3, amended: in every state [InProgress(currentIndex)] whose
    current answer is still unanswered, the card that is rendered
    carries no control for advancing, so a click for it leaves
    [currentQuestion], [userAnswers] and [isQuizCompleted] as they
    were; the guard is in the rendering only: [nextQuestion] itself,
    when called, completes the quiz on the last question and moves to
    the next question otherwise. *)
Theorem advance_unanswered_only_guarded_by_view questions st :
  isQuizCompleted st = false ->
  selectedAnswer st = Some None ->
  (forall q, questions !! currentQuestion st = Some q ->
     exists buttons, Quiz questions st = Ok (QuestionCard (question q) buttons None)) /\
  dispatch questions st ClickNext = st /\
  nextQuestion questions st =
    (if isLastQuestion questions st
     then {| currentQuestion := currentQuestion st;
             userAnswers := userAnswers st;
             isQuizCompleted := true |}
     else {| currentQuestion := S (currentQuestion st);
             userAnswers := userAnswers st;
             isQuizCompleted := false |}) /\
  nextQuestion questions st <> st.
Proof.
  intros Hrun Hsel. pose proof (showResult_unanswered _ Hsel) as Hshow.
  repeat split.
  - intros q Hq. unfold Quiz. rewrite Hrun, Hq, Hshow. eauto.
  - unfold dispatch, Quiz. rewrite Hrun.
    destruct (questions !! currentQuestion st); [|reflexivity].
    rewrite Hshow. reflexivity.
  - unfold nextQuestion. rewrite Hrun. reflexivity.
  - unfold nextQuestion. destruct st as [cur answers completed]. simpl in *.
    destruct (isLastQuestion questions _).
    + intros E. injection E as E. congruence.
    + intros E. injection E as E. lia.
Qed.

Lemma advance_unanswered_only_guarded_by_view_witness :
  let questions := Fixtures.two_questions in
  let st := initial questions in
  dispatch questions st ClickNext = st /\ nextQuestion questions st <> st.
Proof.
  intros questions st.
  destruct (advance_unanswered_only_guarded_by_view questions st eq_refl eq_refl)
    as (_ & Hclick & _ & Hcall).
  split; assumption.
Defined.

(** *** C4 *)

(** C4, as the spec states it, fails: a question without options and a
    correct index outside the options are both malformed, and both
    quizzes mount and render their first card. *)
Lemma malformed_quiz_mounts_counterexample :
  malformed Fixtures.no_options = true /\
  mount Fixtures.no_options = Ok (QuestionCard "Pick one" [] None) /\
  malformed Fixtures.index_out_of_range = true /\
  exists buttons, mount Fixtures.index_out_of_range = Ok (QuestionCard "Pick one" buttons None).
Proof. repeat split; try reflexivity. eexists. reflexivity. Qed.

(** C4, amended: the component checks nothing about its definition.
    Every quiz with at least one question, whatever the options and
    the correct index of its questions, mounts in [InProgress(0)] with
    every answer unanswered and renders its first question; a quiz
    with no question fails in its first render, with the [TypeError]
    of reading [question] of [undefined]. *)
Theorem quiz_definition_not_validated q questions :
  mount (q :: questions) =
    Ok (QuestionCard (question q)
          (imap (answerButton (initial (q :: questions)) q) (options q)) None) /\
  phase (initial (q :: questions)) = InProgress 0 /\
  userAnswers (initial (q :: questions)) = replicate (S (length questions)) None /\
  mount [] = Throw TypeError.
Proof. repeat split. Qed.

(** *** C5 *)

(** C5: on two questions of four options with correct indices 0 and 2,
    choosing option 0, advancing, choosing an option other than 2 and
    advancing ends in [Completed], with the card showing score 1 of 2;
    in every state that has one answer slot per question, and so in
    every state a sequence of events reaches, the score is the number
    of indices whose answer is the correct index; and a second call of
    [handleAnswer] on a question changes nothing, nor does a click on
    an option once the question shows its result. *)
Theorem quiz_scenario_and_score (q1 q2 : QuizQuestion) (wrong : nat)
    questions st (evs : list Event) (i j : Z) (k : nat) :
  length (options q1) = 4%nat -> length (options q2) = 4%nat ->
  correctAnswer q1 = 0 -> correctAnswer q2 = 2 ->
  (wrong < 4)%nat -> wrong <> 2%nat ->
  length (userAnswers st) = length questions ->
  (let final := run [q1; q2] [ClickOption 0; ClickNext; ClickOption wrong; ClickNext] in
   phase final = Completed /\
   userAnswers final = [Some 0; Some (Z.of_nat wrong)] /\
   Quiz [q1; q2] final = Ok (CompletedCard 1 2)) /\
  score questions (userAnswers st) = Ok (count_correct questions (userAnswers st)) /\
  score questions (userAnswers (run questions evs)) =
    Ok (count_correct questions (userAnswers (run questions evs))) /\
  handleAnswer j (handleAnswer i st) = handleAnswer i st /\
  dispatch questions (handleAnswer i st) (ClickOption k) = handleAnswer i st.
Proof.
  intros Ho1 Ho2 Hc1 Hc2 Hlt Hne Hlen.
  split; [|split; [|split; [|split]]].
  - destruct q1 as [t1 o1 c1], q2 as [t2 o2 c2]. simpl in *. subst c1 c2.
    destruct o1 as [|a1 [|a2 [|a3 [|a4 [|]]]]]; try discriminate Ho1.
    destruct o2 as [|b1 [|b2 [|b3 [|b4 [|]]]]]; try discriminate Ho2.
    destruct wrong as [|[|[|[|]]]]; try lia; repeat split; reflexivity.
  - apply score_count, Hlen.
  - apply score_count, run_length.
  - apply handleAnswer_twice.
  - apply dispatch_option_answered, showResult_handleAnswer.
Qed.

Lemma quiz_scenario_and_score_witness :
  let final := run Fixtures.two_questions
                 [ClickOption 0; ClickNext; ClickOption 1; ClickNext] in
  phase final = Completed /\
  Quiz Fixtures.two_questions final = Ok (CompletedCard 1 2) /\
  score Fixtures.two_questions (userAnswers (initial Fixtures.two_questions)) = Ok 0.
Proof.
  destruct (quiz_scenario_and_score
              Fixtures.first_question Fixtures.second_question 1
              Fixtures.two_questions (initial Fixtures.two_questions)
              [ClickOption 2; ClickNext] 0 0 0
              eq_refl eq_refl eq_refl eq_refl ltac:(lia) ltac:(lia) eq_refl)
    as ((Hphase & _ & Hcard) & Hscore & _).
  split; [exact Hphase|split; [exact Hcard|exact Hscore]].
Defined.

End QuizFacts.

(** ** The sort *)

Section SortPermutes.
Import Projects.
Context {A : Type} (comparefn : A -> A -> Z).

Lemma extend_run_split isDescending previous rest run tl :
  extend_run comparefn isDescending previous rest = (run, tl) -> rest = run ++ tl.
Proof.
  revert previous run tl.
  induction rest as [|current rest IH]; intros previous run tl; simpl.
  - intros E. injection E as <- <-. reflexivity.
  - destruct (if isDescending then _ else _).
    + intros E. injection E as <- <-. reflexivity.
    + destruct (extend_run comparefn isDescending current rest) as [run' tl'] eqn:Hrun.
      intros E. injection E as <- <-. simpl. f_equal. eapply IH, Hrun.
Qed.

Lemma CountAndMakeRun_permutes xs run rest :
  CountAndMakeRun comparefn xs = (run, rest) -> run ++ rest ≡ₚ xs.
Proof.
  destruct xs as [|low [|high xs]]; simpl.
  - intros E. injection E as <- <-. reflexivity.
  - intros E. injection E as <- <-. reflexivity.
  - destruct (extend_run comparefn _ high xs) as [run' tl] eqn:Hrun.
    apply extend_run_split in Hrun. subst xs.
    intros E. injection E as <- <-.
    destruct (comparefn high low <? 0).
    + rewrite reverse_Permutation. reflexivity.
    + reflexivity.
Qed.

Lemma insert_pivot_permutes sorted pivot :
  insert_pivot comparefn sorted pivot ≡ₚ pivot :: sorted.
Proof.
  unfold insert_pivot.
  rewrite <- Permutation_middle, take_drop. reflexivity.
Qed.

Lemma BinaryInsertionSort_permutes sorted rest :
  BinaryInsertionSort comparefn sorted rest ≡ₚ sorted ++ rest.
Proof.
  unfold BinaryInsertionSort. revert sorted.
  induction rest as [|pivot rest IH]; intros sorted; simpl.
  - rewrite app_nil_r. reflexivity.
  - rewrite IH, insert_pivot_permutes.
    rewrite <- Permutation_middle. reflexivity.
Qed.

(** Whatever the comparator answers, the sort returns the elements it
    was given. *)
Lemma Array_sort_permutes xs : Array_sort comparefn xs ≡ₚ xs.
Proof.
  unfold Array_sort. destruct (length xs <? 2)%nat; [reflexivity|].
  destruct (CountAndMakeRun comparefn xs) as [run rest] eqn:Hrun.
  rewrite BinaryInsertionSort_permutes.
  eapply CountAndMakeRun_permutes, Hrun.
Qed.

End SortPermutes.

Section SortOrders.
Import Projects.
Context {A : Type} (comparefn : A -> A -> Z).

(** The comparator answers below zero exactly when its second argument
    does not have the larger key; this is asked of the elements that
    satisfy [P] only. *)
Context (key : A -> Z) (P : A -> Prop).
Hypothesis comparefn_key :
  forall a b, P a -> P b -> (comparefn a b <? 0) = (key b <=? key a).











End SortOrders.

(** ** The content repository *)

Section ProjectsFacts.
Import Js Projects.
Context `{Runtime}.

Implicit Types (fs : FileSystem) (slug fileName : string).

Lemma length_append (s t : string) :
  String.length (s +:+ t) = (String.length s + String.length t)%nat.
Proof. induction s as [|c s IH]; simpl; [reflexivity|]. rewrite IH. reflexivity. Qed.

Lemma append_not_suffix c base : String c base +:+ ".mdx" <> ".mdx".
Proof.
  intros E. apply (f_equal String.length) in E.
  simpl in E. rewrite length_append in E. simpl in E. lia.
Qed.

(** Cutting [.mdx] from the end of a name that ends in it gives back
    what was in front. *)
Lemma replace_mdx_end_append base : replace_mdx_end (base +:+ ".mdx") = base.
Proof.
  induction base as [|c base IH].
  - reflexivity.
  - change (String c base +:+ ".mdx") with (String c (base +:+ ".mdx")).
    cbn [replace_mdx_end].
    destruct (String.eqb_spec (String c (base +:+ ".mdx")) ".mdx") as [E|_].
    + exfalso. exact (append_not_suffix c base E).
    + rewrite IH. reflexivity.
Qed.

Lemma find_entry_listed name es e : find_entry name es = Some e -> name ∈ es.*1.
Proof.
  induction es as [|[n e'] es IH]; simpl; [discriminate|].
  destruct (String.eqb_spec n name) as [->|_].
  - intros _. apply list_elem_of_here.
  - intros Hf. apply list_elem_of_further, IH, Hf.
Qed.

(** The [catch] of [getProjectBySlug] leaves nothing to throw. *)
Lemma getProjectBySlug_never_throws fs slug e : getProjectBySlug fs slug <> Throw e.
Proof.
  unfold getProjectBySlug, try_catch.
  destruct (_ ≫= _); discriminate.
Qed.

Lemma getProjectBySlug_found fs slug text data body :
  readFileSync fs (slug +:+ ".mdx") = Ok text ->
  matter text = Ok (data, body) ->
  getProjectBySlug fs slug =
    Ok (Some {| metadata := <["slug" := slug]> data; content := body |}).
Proof.
  intros Hread Hparse. unfold getProjectBySlug.
  rewrite Hread. simpl. rewrite Hparse. reflexivity.
Qed.

Lemma getProjectBySlug_read_fails fs slug e :
  readFileSync fs (slug +:+ ".mdx") = Throw e -> getProjectBySlug fs slug = Ok None.
Proof. intros Hread. unfold getProjectBySlug. rewrite Hread. reflexivity. Qed.

Lemma getProjectMetadata_found fs fileName text data body :
  readFileSync fs fileName = Ok text ->
  matter text = Ok (data, body) ->
  getProjectMetadata fs fileName = Ok (<["slug" := replace_mdx_end fileName]> data).
Proof.
  intros Hread Hparse. unfold getProjectMetadata.
  rewrite Hread. simpl. rewrite Hparse. reflexivity.
Qed.

Lemma getProjectBySlug_slug fs slug p :
  getProjectBySlug fs slug = Ok (Some p) -> metadata p !! "slug" = Some slug.
Proof.
  unfold getProjectBySlug.
  destruct (readFileSync fs (slug +:+ ".mdx")) as [text|]; simpl; [|discriminate].
  destruct (matter text) as [[data body]|]; simpl; [|discriminate].
  intros E. injection E as <-. simpl. apply lookup_insert_eq.
Qed.

(** *** C6 *)

(** C6, amended: [getProjectBySlug] wraps its whole body in [try] and
    answers [null] from the [catch].  When the read fails (the directory
    is missing, the file is missing or cannot be read) or the parser
    throws on the text, the call resolves to [null], the very result of
    a lookup that matches nothing; no error reaches the caller. *)
Theorem getProjectBySlug_failure_is_null fs slug e :
  (readFileSync fs (slug +:+ ".mdx") = Throw e \/
   exists text, readFileSync fs (slug +:+ ".mdx") = Ok text /\ matter text = Throw e) ->
  getProjectBySlug fs slug = Ok None /\
  (forall e', getProjectBySlug fs slug <> Throw e').
Proof.
  intros Hfail. split; [|intros e'; apply getProjectBySlug_never_throws].
  destruct Hfail as [Hread|(text & Hread & Hparse)].
  - eapply getProjectBySlug_read_fails, Hread.
  - unfold getProjectBySlug. rewrite Hread. simpl. rewrite Hparse. reflexivity.
Qed.

(** *** C7 *)


(** *** C10 *)

(** C10: for a file [base.mdx] that reads and parses, whatever its
    frontmatter holds, the normalizer's record is the frontmatter with
    [slug] set to [base]: the [slug] field is [base] even when the
    frontmatter declares another, and every other field is the
    frontmatter's; and the record [getProjectBySlug s] returns has
    [metadata.slug] equal to [s]. *)
Theorem filename_slug_overrides_frontmatter fs (base : string) text data body
    (s : string) (p : Project) :
  readFileSync fs (base +:+ ".mdx") = Ok text ->
  matter text = Ok (data, body) ->
  getProjectBySlug fs s = Ok (Some p) ->
  getProjectMetadata fs (base +:+ ".mdx") = Ok (<["slug" := base]> data) /\
  (<["slug" := base]> data) !! "slug" = Some base /\
  (forall key, key <> "slug" -> (<["slug" := base]> data) !! key = data !! key) /\
  (exists q, getProjectBySlug fs base = Ok (Some q) /\ metadata q !! "slug" = Some base) /\
  metadata p !! "slug" = Some s.
Proof.
  intros Hread Hparse Hget. repeat split.
  - rewrite (getProjectMetadata_found _ _ _ _ _ Hread Hparse).
    rewrite replace_mdx_end_append. reflexivity.
  - apply lookup_insert_eq.
  - intros key Hkey. apply lookup_insert_ne. congruence.
  - eexists. split.
    + apply (getProjectBySlug_found _ _ _ _ _ Hread Hparse).
    + simpl. apply lookup_insert_eq.
  - eapply getProjectBySlug_slug, Hget.
Qed.

(** *** C1 *)




(** *** Truncation *)

(** [if (limit)] does not tell [0] from a missing argument. *)
Lemma getProjects_limit_zero fs : getProjects fs (Some 0) = getProjects fs None.
Proof. reflexivity. Qed.

Lemma length_slice0 {A} (xs : list A) (k : Z) :
  0 <= k -> length (slice0 xs k) = Z.to_nat (Z.min k (Z.of_nat (length xs))).
Proof.
  intros Hk. unfold slice0.
  destruct (Z.ltb_spec k 0) as [Hneg|_]; [lia|].
  rewrite length_take. lia.
Qed.

(** A limit of at least one keeps the first [limit] records of the
    full listing, all of them when there are fewer. *)
Lemma getProjects_limit_positive fs (k : Z) (all : list (gmap string string)) :
  0 < k ->
  getProjects fs None = Ok all ->
  getProjects fs (Some k) = Ok (take (Z.to_nat k) all) /\
  length (take (Z.to_nat k) all) = Z.to_nat (Z.min k (Z.of_nat (length all))).
Proof.
  intros Hk. unfold getProjects.
  destruct (readdirSync fs) as [files|]; simpl; [|discriminate].
  destruct (map_throwing (getProjectMetadata fs) files) as [unsorted|]; simpl; [|discriminate].
  intros E. injection E as <-.
  destruct (Z.eqb_spec k 0) as [->|_]; [lia|].
  split.
  - f_equal. unfold slice0. destruct (Z.ltb_spec k 0) as [Hneg|_]; [lia|].
    rewrite Z.min_comm.
    destruct (Z.min_spec (Z.of_nat (length (Array_sort by_date unsorted))) k) as [[Hlt ->]|[Hle ->]].
    + rewrite Nat2Z.id. rewrite !take_ge; [reflexivity|lia|lia].
    + reflexivity.
  - rewrite length_take. lia.
Qed.

End ProjectsFacts.

(** *** Runs on the fixtures *)

Section ProjectsExamples.
Import Js Projects.

(** C6, as the spec states it, fails: with the directory missing, and
    with a document that cannot be read, the read throws and the lookup
    resolves to [null], as it does for a slug nothing matches. *)
Lemma getProjectBySlug_propagates_counterexample :
  readFileSync Fixtures.no_directory "cryptoverse.mdx" = Throw ENOENT /\
  getProjectBySlug Fixtures.no_directory "cryptoverse" = Ok None /\
  readFileSync Fixtures.locked_document "locked.mdx" = Throw EACCES /\
  getProjectBySlug Fixtures.locked_document "locked" = Ok None /\
  getProjectBySlug Fixtures.two_projects "nothing-here" = Ok None.
Proof. repeat split. Qed.

Lemma getProjectBySlug_failure_is_null_witness :
  getProjectBySlug Fixtures.locked_document "locked" = Ok None.
Proof.
  apply (getProjectBySlug_failure_is_null Fixtures.locked_document "locked" EACCES).
  left. reflexivity.
Defined.


Lemma filename_slug_overrides_frontmatter_witness :
  (Frontmatter.matter Fixtures.cryptoverse).1 !! "slug" = Some "crypto-app" /\
  exists m, getProjectMetadata Fixtures.two_projects "cryptoverse.mdx" = Ok m /\
            m !! "slug" = Some "cryptoverse".
Proof.
  split; [vm_compute; reflexivity|].
  destruct (getProjectBySlug Fixtures.two_projects "cryptoverse") as [[p|]|] eqn:Hget;
    [|vm_compute in Hget; discriminate Hget..].
  destruct (filename_slug_overrides_frontmatter Fixtures.two_projects
              "cryptoverse" Fixtures.cryptoverse
              (Frontmatter.matter Fixtures.cryptoverse).1
              (Frontmatter.matter Fixtures.cryptoverse).2
              "cryptoverse" p)
    as (Hmeta & Hslug & _).
  - reflexivity.
  - vm_compute. reflexivity.
  - exact Hget.
  - eexists. split; [exact Hmeta|exact Hslug].
Defined.



(** C2 at limit 0: four documents are listed, and [getProjects(0)]
    returns the four of them where the claim has none. *)
Lemma getProjects_zero_returns_all :
  exists ps, getProjects Fixtures.four_projects (Some 0) = Ok ps /\
             Fixtures.slugs ps = [Some "beta"; Some "delta"; Some "alpha"; Some "gamma"] /\
             length ps = 4%nat /\
             Z.min 0 4 = 0.
Proof.
  destruct (getProjects Fixtures.four_projects (Some 0)) as [ps|e] eqn:Hget;
    [|vm_compute in Hget; discriminate Hget].
  exists ps. split; [reflexivity|].
  assert (Hs : match getProjects Fixtures.four_projects (Some 0) with
               | Ok l => Fixtures.slugs l
               | Throw _ => []
               end = [Some "beta"; Some "delta"; Some "alpha"; Some "gamma"])
    by (vm_compute; reflexivity).
  rewrite Hget in Hs. split; [exact Hs|]. split; [|reflexivity].
  apply (f_equal length) in Hs. unfold Fixtures.slugs in Hs.
  rewrite length_fmap in Hs. exact Hs.
Qed.

End ProjectsExamples.

(** ** The frontmatter parser *)

Section FrontmatterFacts.
Import Frontmatter.

Lemma append_cons c (s t : string) : String c s +:+ t = String c (s +:+ t).
Proof. reflexivity. Qed.

Lemma append_nil (t : string) : EmptyString +:+ t = t.
Proof. reflexivity. Qed.

Lemma append_assoc (s t u : string) : (s +:+ t) +:+ u = s +:+ t +:+ u.
Proof.
  induction s as [|c s IH]; [reflexivity|].
  rewrite !append_cons, IH. reflexivity.
Qed.

Lemma occurs_append c (s t : string) : occurs c (s +:+ t) = occurs c s || occurs c t.
Proof.
  induction s as [|d s IH]; [reflexivity|].
  rewrite append_cons. cbn [occurs]. rewrite IH. apply orb_assoc.
Qed.

(** *** Lines *)

Lemma lines_not_nil s : lines s <> [].
Proof.
  destruct s as [|c s]; simpl; [discriminate|].
  destruct (Ascii.eqb c newline); [discriminate|].
  destruct (lines s); discriminate.
Qed.

Lemma unlines_cons l l' ls : unlines (l :: l' :: ls) = l +:+ nl +:+ unlines (l' :: ls).
Proof. reflexivity. Qed.

(** Cutting a text in lines and joining the lines gives the text back. *)
Lemma unlines_lines s : unlines (lines s) = s.
Proof.
  induction s as [|c s IH]; [reflexivity|]. cbn [lines].
  destruct (Ascii.eqb_spec c newline) as [->|Hc].
  - pose proof (lines_not_nil s) as Hne.
    destruct (lines s) as [|l ls]; [contradiction|].
    rewrite unlines_cons, IH. reflexivity.
  - pose proof (lines_not_nil s) as Hne.
    destruct (lines s) as [|l ls]; [contradiction|].
    rewrite <- IH. destruct ls; reflexivity.
Qed.

Lemma lines_no_newline s : Forall (fun l => occurs newline l = false) (lines s).
Proof.
  induction s as [|c s IH]; cbn [lines]; [repeat constructor|].
  destruct (Ascii.eqb_spec c newline) as [->|Hc].
  - constructor; [reflexivity|exact IH].
  - destruct (lines s) as [|l ls]; [repeat constructor; simpl|].
    + apply Ascii.eqb_neq in Hc. rewrite Hc. reflexivity.
    + apply Forall_cons in IH as [Hl Hls]. constructor; [|exact Hls].
      simpl. apply Ascii.eqb_neq in Hc. rewrite Hc, Hl. reflexivity.
Qed.

Lemma lines_single l : occurs newline l = false -> lines l = [l].
Proof.
  induction l as [|c l IH]; [reflexivity|]. simpl.
  intros Hl. apply orb_false_elim in Hl as [Hc Hl].
  rewrite Hc, (IH Hl). reflexivity.
Qed.

Lemma lines_append l s :
  occurs newline l = false -> lines (l +:+ nl +:+ s) = l :: lines s.
Proof.
  induction l as [|c l IH]; [reflexivity|].
  rewrite append_cons. cbn [lines occurs].
  intros Hl. apply orb_false_elim in Hl as [Hc Hl].
  rewrite Hc, (IH Hl). reflexivity.
Qed.

(** *** Pairs *)

Lemma split_colon_append key rest :
  occurs ":" key = false -> split_colon (key +:+ String ":" rest) = Some (key, rest).
Proof.
  induction key as [|c key IH]; [reflexivity|].
  rewrite append_cons. cbn [split_colon occurs].
  intros Hk. apply orb_false_elim in Hk as [Hc Hk].
  rewrite Hc, (IH Hk). reflexivity.
Qed.

Lemma split_colon_inv s key rest :
  split_colon s = Some (key, rest) ->
  s = key +:+ String ":" rest /\ occurs ":" key = false.
Proof.
  revert key. induction s as [|c s IH]; intros key; simpl; [discriminate|].
  destruct (Ascii.eqb_spec c ":") as [->|Hc].
  - intros E. injection E as <- <-. split; reflexivity.
  - destruct (split_colon s) as [[key' rest']|]; [|discriminate].
    intros E. injection E as <- <-.
    destruct (IH key' eq_refl) as [-> Hk]. split; [reflexivity|].
    cbn [occurs]. apply Ascii.eqb_neq in Hc. rewrite Hc, Hk. reflexivity.
Qed.

Lemma close_quote_append q v : close_quote q (v +:+ String q EmptyString) = Some v.
Proof.
  induction v as [|c v IH].
  - rewrite append_nil. cbn [close_quote]. rewrite Ascii.eqb_refl. reflexivity.
  - rewrite append_cons. cbn [close_quote].
    destruct (v +:+ String q EmptyString) eqn:E.
    + destruct v; discriminate E.
    + rewrite IH. reflexivity.
Qed.

Lemma close_quote_inv q s v :
  close_quote q s = Some v -> s = v +:+ String q EmptyString.
Proof.
  revert v. induction s as [|c s IH]; intros v; [discriminate|].
  cbn [close_quote]. destruct s as [|d s].
  - destruct (Ascii.eqb_spec c q) as [->|_]; [|discriminate].
    intros E. injection E as <-. reflexivity.
  - destruct (close_quote q (String d s)) as [v'|]; [|discriminate].
    intros E. injection E as <-. rewrite (IH v' eq_refl). reflexivity.
Qed.

Lemma is_quote_not_newline q : is_quote q = true -> Ascii.eqb q newline = false.
Proof.
  unfold is_quote. intros Hq. apply orb_true_iff in Hq as [Hq|Hq];
    apply Ascii.eqb_eq in Hq; subst q; reflexivity.
Qed.

Lemma unquote_scalar_text sc :
  well_formed_scalar sc -> unquote (scalar_text sc) = scalar_value sc.
Proof.
  intros [_ Hsc]. destruct sc as [v|q v]; simpl in *; [exact Hsc|].
  rewrite Hsc, close_quote_append. reflexivity.
Qed.

Lemma scalar_text_no_newline sc :
  well_formed_scalar sc -> occurs newline (scalar_text sc) = false.
Proof.
  intros [Hv Hsc]. destruct sc as [v|q v]; simpl in *; [exact Hv|].
  rewrite occurs_append, Hv. simpl.
  rewrite (is_quote_not_newline q Hsc). reflexivity.
Qed.

Lemma pair_line_eq kv : pair_line kv = kv.1 +:+ String ":" (String " " (scalar_text kv.2)).
Proof. reflexivity. Qed.

Lemma parse_pair_line kv :
  well_formed_field kv -> parse_pair (pair_line kv) = Some (kv.1, scalar_value kv.2).
Proof.
  intros (Hne & Hcolon & _ & Hsc). unfold parse_pair.
  rewrite pair_line_eq, (split_colon_append _ _ Hcolon).
  rewrite (unquote_scalar_text _ Hsc).
  destruct (String.eqb_spec kv.1 EmptyString) as [E|_]; [contradiction|reflexivity].
Qed.

Lemma pair_line_not_delimiter kv : String.eqb (pair_line kv) "---" = false.
Proof.
  apply eqb_neq. intros E. apply (f_equal (occurs ":")) in E.
  rewrite pair_line_eq, occurs_append in E. simpl in E.
  rewrite orb_true_r in E. discriminate E.
Qed.

Lemma pair_line_no_newline kv :
  well_formed_field kv -> occurs newline (pair_line kv) = false.
Proof.
  intros (_ & _ & Hkey & Hsc).
  rewrite pair_line_eq, occurs_append, Hkey. simpl.
  apply scalar_text_no_newline, Hsc.
Qed.

(** A line that parses as a pair is a pair line of the format. *)
Lemma parse_pair_inv line key value :
  occurs newline line = false ->
  parse_pair line = Some (key, value) ->
  exists sc, line = pair_line (key, sc) /\ well_formed_field (key, sc) /\
             scalar_value sc = value.
Proof.
  unfold parse_pair. intros Hline.
  destruct (split_colon line) as [[k rest]|] eqn:Hsplit; [|discriminate].
  apply split_colon_inv in Hsplit as [-> Hcolon].
  destruct rest as [|sp raw]; [discriminate|].
  destruct (Ascii.eqb_spec sp " ") as [->|Hsp].
  2:{ destruct sp as [[] [] [] [] [] [] [] []]; try discriminate; contradiction. }
  destruct (String.eqb_spec k EmptyString) as [_|Hk]; [discriminate|].
  intros E. injection E as <- <-.
  rewrite occurs_append in Hline. apply orb_false_elim in Hline as [Hkey Hraw].
  simpl in Hraw.
  assert (Hplain : unquote raw = raw ->
            exists sc, k +:+ String ":" (String " " raw) = pair_line (k, sc) /\
                       well_formed_field (k, sc) /\ scalar_value sc = unquote raw).
  { intros Hun. exists (Plain raw). rewrite Hun. repeat split; assumption. }
  destruct raw as [|q rest]; [apply Hplain; reflexivity|].
  cbn [unquote] in *. destruct (is_quote q) eqn:Hq; [|apply Hplain; reflexivity].
  destruct (close_quote q rest) as [v|] eqn:Hclose; [|apply Hplain; reflexivity].
  apply close_quote_inv in Hclose as ->.
  exists (Quoted q v). repeat split; try assumption.
  simpl. simpl in Hraw. apply orb_false_elim in Hraw as [_ Hraw].
  rewrite occurs_append in Hraw. apply orb_false_elim in Hraw as [Hv _]. exact Hv.
Qed.

(** *** Blocks *)

Lemma lines_pair_lines fields rest :
  Forall well_formed_field fields ->
  lines (pair_lines fields +:+ rest) = (pair_line <$> fields) ++ lines rest.
Proof.
  induction 1 as [|kv fields Hkv _ IH]; [reflexivity|].
  cbn [pair_lines fmap list_fmap].
  rewrite !append_assoc, (lines_append _ _ (pair_line_no_newline kv Hkv)), IH.
  reflexivity.
Qed.

Lemma lines_document fields body :
  Forall well_formed_field fields ->
  lines (document fields body) =
    "---" :: (pair_line <$> fields) ++ "---" ::
      match body with
      | Some b => lines b
      | None => []
      end.
Proof.
  intros Hfields. unfold document.
  rewrite (lines_append "---") by reflexivity.
  rewrite (lines_pair_lines _ _ Hfields).
  destruct body as [b|].
  - rewrite (lines_append "---") by reflexivity. reflexivity.
  - reflexivity.
Qed.

Lemma parse_block_pairs fields rest :
  Forall well_formed_field fields ->
  parse_block ((pair_line <$> fields) ++ "---" :: rest) = Some (field_values fields, rest).
Proof.
  induction 1 as [|kv fields Hkv _ IH]; [reflexivity|].
  cbn [fmap list_fmap app parse_block].
  rewrite pair_line_not_delimiter, (parse_pair_line kv Hkv).
  change (list_fmap _ _ pair_line fields) with (pair_line <$> fields).
  rewrite IH. destruct kv; reflexivity.
Qed.

Lemma unlines_pairs fields l ls :
  unlines ((pair_line <$> fields) ++ l :: ls) = pair_lines fields +:+ unlines (l :: ls).
Proof.
  induction fields as [|kv fields IH]; [reflexivity|].
  cbn [fmap list_fmap app pair_lines].
  change (list_fmap _ _ pair_line fields) with (pair_line <$> fields).
  destruct ((pair_line <$> fields) ++ l :: ls) as [|l' ls'] eqn:E.
  { destruct fields; discriminate E. }
  rewrite unlines_cons, IH, !append_assoc. reflexivity.
Qed.

(** Lines that parse as a block are the pair lines of well-formed
    fields, then the closing delimiter. *)
Lemma parse_block_inv ls kvs rest :
  Forall (fun l => occurs newline l = false) ls ->
  parse_block ls = Some (kvs, rest) ->
  exists fields, Forall well_formed_field fields /\ field_values fields = kvs /\
                 ls = (pair_line <$> fields) ++ "---" :: rest.
Proof.
  intros Hls. revert kvs.
  induction Hls as [|l ls Hl _ IH]; intros kvs; [discriminate|].
  cbn [parse_block].
  destruct (String.eqb_spec l "---") as [->|_].
  - intros E. injection E as <- <-. exists []. repeat split. constructor.
  - destruct (parse_pair l) as [[key value]|] eqn:Hpair; [|discriminate].
    destruct (parse_block ls) as [[kvs' rest']|]; [|discriminate].
    intros E. injection E as <- <-.
    destruct (IH kvs' eq_refl) as (fields & Hwf & Hvalues & ->).
    destruct (parse_pair_inv l key value Hl Hpair) as (sc & -> & Hsc & Hvalue).
    exists ((key, sc) :: fields). repeat split.
    + constructor; assumption.
    + cbn. rewrite Hvalue. f_equal. exact Hvalues.
Qed.

Lemma unlines_document fields body_lines :
  unlines ("---" :: (pair_line <$> fields) ++ "---" :: body_lines) =
    document fields (match body_lines with
                     | [] => None
                     | _ :: _ => Some (unlines body_lines)
                     end).
Proof.
  destruct ((pair_line <$> fields) ++ "---" :: body_lines) as [|l ls] eqn:E.
  { destruct fields; discriminate E. }
  rewrite unlines_cons, <- E, unlines_pairs. unfold document.
  destruct body_lines as [|b bs]; [reflexivity|].
  rewrite unlines_cons. reflexivity.
Qed.

(** A text with a leading block parses to the fields of the block and
    the text after the closing delimiter. *)
Lemma matter_document fields body :
  Forall well_formed_field fields ->
  matter (document fields body) = (list_to_map (field_values fields), default EmptyString body).
Proof.
  intros Hfields. unfold matter.
  rewrite (lines_document _ _ Hfields). cbn [String.eqb Ascii.eqb Bool.eqb].
  rewrite (parse_block_pairs _ _ Hfields).
  destruct body as [b|]; [|reflexivity].
  rewrite unlines_lines. reflexivity.
Qed.

(** A text that is no document with a leading block parses to no
    metadata and itself as the body. *)
Lemma matter_without_block text :
  (forall fields body, Forall well_formed_field fields -> text <> document fields body) ->
  matter text = (∅, text).
Proof.
  intros Hnone. unfold matter.
  pose proof (unlines_lines text) as Htext.
  pose proof (lines_no_newline text) as Hlines.
  destruct (lines text) as [|first rest]; [reflexivity|].
  destruct (String.eqb_spec first "---") as [->|_]; [|reflexivity].
  destruct (parse_block rest) as [[kvs body_lines]|] eqn:Hblock; [|reflexivity].
  exfalso. apply Forall_cons in Hlines as [_ Hrest].
  destruct (parse_block_inv _ _ _ Hrest Hblock) as (fields & Hwf & _ & ->).
  rewrite unlines_document in Htext.
  eapply Hnone; [exact Hwf|]. symmetry. exact Htext.
Qed.

(** *** C8 *)

(** C8: a text that begins with a triple-dash-delimited block of
    [key: value] lines parses to exactly the fields of the block and,
    as the body, to the text after the closing delimiter, unchanged;
    a text that is no such document parses to empty metadata and the
    whole text as the body; the parser has no failing case.  Through
    [getProjectBySlug] the body arrives as parsed, with the fields and
    the slug as metadata. *)
Theorem matter_splits_leading_block
    (fields : list (string * scalar)) (body : option string) (text : string)
    (fs : Projects.FileSystem) (slug : string) :
  Forall well_formed_field fields ->
  (forall fields' body', Forall well_formed_field fields' -> text <> document fields' body') ->
  Projects.readFileSync fs (slug +:+ ".mdx") = Js.Ok (document fields body) ->
  matter (document fields body) = (list_to_map (field_values fields), default EmptyString body) /\
  matter text = (∅, text) /\
  Projects.getProjectBySlug fs slug =
    Js.Ok (Some {| Projects.metadata := <["slug" := slug]> (list_to_map (field_values fields));
                   Projects.content := default EmptyString body |}).
Proof.
  intros Hfields Hnone Hread. split; [|split].
  - apply matter_document, Hfields.
  - apply matter_without_block, Hnone.
  - apply (getProjectBySlug_found fs slug (document fields body)); [exact Hread|].
    cbn [Projects.matter example_runtime]. rewrite (matter_document _ _ Hfields).
    reflexivity.
Qed.

Lemma matter_splits_leading_block_witness :
  let text := document [("title", Quoted dquote "T"); ("date", Quoted dquote "2024-01-01")]
                (Some "Hello") in
  (matter text).2 = "Hello" /\
  (matter text).1 !! "title" = Some "T" /\
  (matter text).1 !! "date" = Some "2024-01-01" /\
  matter "# Hello" = (∅, "# Hello").
Proof.
  intros text.
  destruct (matter_splits_leading_block
              [("title", Quoted dquote "T"); ("date", Quoted dquote "2024-01-01")]
              (Some "Hello") "# Hello"
              {| Projects.rootDirectory := Some [("hello.mdx", Projects.File text)] |}
              "hello")
    as (Hblock & Hplain & _).
  - repeat constructor; discriminate.
  - intros fields' body' _ E. discriminate E.
  - reflexivity.
  - subst text. rewrite Hblock. repeat split; try exact Hplain; vm_compute; reflexivity.
Defined.

End FrontmatterFacts.

(** ** More on the content repository *)

Section ListingFacts.
Import Js Projects ProjectPage.
Context `{Runtime}.

Implicit Types (fs : FileSystem) (files : list string)
  (ps : list (gmap string string)).

Lemma map_throwing_Forall2 {X Y} (f : X -> result Y) xs ys :
  map_throwing f xs = Ok ys -> Forall2 (fun x y => f x = Ok y) xs ys.
Proof.
  revert ys. induction xs as [|x xs IH]; intros ys; simpl.
  - intros E. injection E as <-. constructor.
  - destruct (f x) as [y|] eqn:Hx; simpl; [|discriminate].
    destruct (map_throwing f xs) as [ys'|]; simpl; [|discriminate].
    intros E. injection E as <-. constructor; [exact Hx|apply IH; reflexivity].
Qed.

Lemma getProjectMetadata_inv fs fileName m :
  getProjectMetadata fs fileName = Ok m ->
  exists text data body,
    readFileSync fs fileName = Ok text /\ matter text = Ok (data, body) /\
    m = <["slug" := replace_mdx_end fileName]> data.
Proof.
  unfold getProjectMetadata.
  destruct (readFileSync fs fileName) as [text|]; simpl; [|discriminate].
  destruct (matter text) as [[data body]|] eqn:Hparse; simpl; [|discriminate].
  intros E. injection E as <-. exists text, data, body.
  split; [reflexivity|]. split; [exact Hparse|reflexivity].
Qed.

(** A listing that succeeds is the sorted metadata of the listed
    files, cut by the limit. *)
Lemma getProjects_inv fs limit ps :
  getProjects fs limit = Ok ps ->
  exists files unsorted,
    readdirSync fs = Ok files /\
    Forall2 (fun f m => getProjectMetadata fs f = Ok m) files unsorted /\
    (limit = None \/ limit = Some 0 -> ps = Array_sort by_date unsorted) /\
    (forall m, m ∈ ps -> m ∈ unsorted).
Proof.
  unfold getProjects.
  destruct (readdirSync fs) as [files|]; simpl; [|discriminate].
  destruct (map_throwing (getProjectMetadata fs) files) as [unsorted|] eqn:Hmap;
    simpl; [|discriminate].
  apply map_throwing_Forall2 in Hmap.
  intros E. exists files, unsorted. split; [reflexivity|]. split; [exact Hmap|].
  assert (Hsub : forall k m, m ∈ slice0 (Array_sort by_date unsorted) k -> m ∈ unsorted).
  { intros k m Hm. unfold slice0 in Hm. apply elem_of_take in Hm as (i & Hi & _).
    apply list_elem_of_lookup_2 in Hi.
    rewrite (Array_sort_permutes by_date unsorted) in Hi. exact Hi. }
  assert (Hall : forall m, m ∈ Array_sort by_date unsorted -> m ∈ unsorted).
  { intros m Hm. rewrite (Array_sort_permutes by_date unsorted) in Hm. exact Hm. }
  destruct limit as [k|].
  - destruct (Z.eqb_spec k 0) as [->|Hk]; injection E as <-.
    + split; [reflexivity|exact Hall].
    + split; [|apply Hsub]. intros [E|E]; [discriminate|]. congruence.
  - injection E as <-. split; [reflexivity|exact Hall].
Qed.

Lemma metadata_slugs fs files ps :
  Forall2 (fun f m => getProjectMetadata fs f = Ok m) files ps ->
  (fun p : gmap string string => p !! "slug") <$> ps =
  (fun f => Some (replace_mdx_end f)) <$> files.
Proof.
  induction 1 as [|f m files ps Hm _ IH]; [reflexivity|].
  cbn [fmap list_fmap]. f_equal; [|exact IH].
  apply getProjectMetadata_inv in Hm as (text & data & body & _ & _ & ->).
  apply lookup_insert_eq.
Qed.

Lemma getProjects_slugs fs files ps :
  readdirSync fs = Ok files ->
  getProjects fs None = Ok ps ->
  length ps = length files /\
  (fun p : gmap string string => p !! "slug") <$> ps ≡ₚ
    (fun f => Some (replace_mdx_end f)) <$> files.
Proof.
  intros Hdir Hget.
  destruct (getProjects_inv _ _ _ Hget) as (files' & unsorted & Hdir' & Hmeta & Hps & _).
  rewrite Hdir in Hdir'. injection Hdir' as <-.
  rewrite (Hps (or_introl eq_refl)).
  rewrite <- (metadata_slugs _ _ _ Hmeta).
  split.
  - rewrite (Array_sort_permutes by_date unsorted). symmetry.
    eapply Forall2_length, Hmeta.
  - apply fmap_Permutation, Array_sort_permutes.
Qed.

(** *** X1 *)

(** X1: a listing without limit holds one record per directory entry,
    none lost and none twice: its slugs are, up to order, the names of
    the directory with a trailing [.mdx] cut off. *)
Theorem getProjects_lists_every_entry fs files ps :
  readdirSync fs = Ok files ->
  getProjects fs None = Ok ps ->
  length ps = length files /\
  (fun p : gmap string string => p !! "slug") <$> ps ≡ₚ
    (fun f => Some (replace_mdx_end f)) <$> files.
Proof. apply getProjects_slugs. Qed.

(** *** X2 *)

Lemma map_throwing_first_failure {X Y} (f : X -> result Y) good bad rest e :
  Forall (fun x => exists y, f x = Ok y) good ->
  f bad = Throw e ->
  map_throwing f (good ++ bad :: rest) = Throw e.
Proof.
  induction 1 as [|x good [y Hx] _ IH]; intros Hbad; simpl.
  - rewrite Hbad. reflexivity.
  - rewrite Hx. simpl. rewrite (IH Hbad). reflexivity.
Qed.

(** X2: the listing fails as a whole.  When an entry of the directory
    cannot be read or parsed, [getProjects] rejects with the error of
    the first such entry, whatever the limit and however many entries
    are fine; there is no partial listing.  Without the directory it
    rejects with [ENOENT]. *)
Theorem getProjects_fails_as_a_whole fs (good : list string) (bad : string)
    (rest : list string) (e : exn) (limit : option Z) :
  readdirSync fs = Ok (good ++ bad :: rest) ->
  Forall (fun f => exists m, getProjectMetadata fs f = Ok m) good ->
  getProjectMetadata fs bad = Throw e ->
  getProjects fs limit = Throw e /\
  getProjects {| rootDirectory := None |} limit = Throw ENOENT.
Proof.
  intros Hdir Hgood Hbad. split; [|reflexivity].
  unfold getProjects. rewrite Hdir. simpl.
  rewrite (map_throwing_first_failure _ _ _ _ _ Hgood Hbad). reflexivity.
Qed.

(** *** X3 *)

(** X3: a limit of one or more keeps the front of the full listing:
    [getProjects(k)] is the first [k] records of [getProjects()], all of
    them when the collection holds no more than [k]; the home page's
    [getProjects(2)] shows the first two. *)
Theorem positive_limit_takes_a_prefix fs (k : Z) (all : list (gmap string string)) :
  0 < k ->
  getProjects fs None = Ok all ->
  getProjects fs (Some k) = Ok (take (Z.to_nat k) all) /\
  length (take (Z.to_nat k) all) = Z.to_nat (Z.min k (Z.of_nat (length all))) /\
  (Z.of_nat (length all) <= k -> getProjects fs (Some k) = Ok all).
Proof.
  intros Hk Hall.
  destruct (getProjects_limit_positive fs k all Hk Hall) as [Htop Hlen].
  split; [exact Htop|]. split; [exact Hlen|].
  intros Hle. rewrite Htop, take_ge by lia. reflexivity.
Qed.

(** *** X4 *)

(** X4: a negative limit counts from the back: [getProjects(-n)]
    returns the full listing without its last [n] records, and nothing
    when [n] is the length of the listing or more. *)
Theorem getProjects_negative_limit fs (n : nat) (all : list (gmap string string)) :
  (0 < n)%nat ->
  getProjects fs None = Ok all ->
  getProjects fs (Some (- Z.of_nat n)) = Ok (take (length all - n) all).
Proof.
  intros Hn. unfold getProjects.
  destruct (readdirSync fs) as [files|]; simpl; [|discriminate].
  destruct (map_throwing (getProjectMetadata fs) files) as [unsorted|]; simpl; [|discriminate].
  intros E. injection E as <-.
  destruct (Z.eqb_spec (- Z.of_nat n) 0) as [E|_]; [lia|].
  f_equal. unfold slice0.
  destruct (Z.ltb_spec (- Z.of_nat n) 0) as [_|Hge]; [|lia].
  f_equal. lia.
Qed.

(** *** X5 *)

Lemma extend_run_all_below {A} (comparefn : A -> A -> Z) (P : A -> Prop)
    previous rest :
  (forall a b, P a -> P b -> comparefn a b < 0) ->
  P previous -> Forall P rest ->
  extend_run comparefn true previous rest = (rest, []).
Proof.
  intros Hneg Hp Hrest. revert previous Hp.
  induction Hrest as [|current rest Hc _ IH]; intros previous Hp; [reflexivity|].
  cbn [extend_run]. destruct (Z.leb_spec 0 (comparefn current previous)) as [Hge|_].
  - specialize (Hneg current previous Hc Hp). lia.
  - rewrite (IH current Hc). reflexivity.
Qed.

(** On elements the comparator always answers below zero for, the sort
    reverses its input. *)
Lemma Array_sort_reverses {A} (comparefn : A -> A -> Z) (P : A -> Prop) xs :
  (forall a b, P a -> P b -> comparefn a b < 0) ->
  Forall P xs ->
  Array_sort comparefn xs = reverse xs.
Proof.
  intros Hneg HP. unfold Array_sort.
  destruct xs as [|low [|high xs]]; [reflexivity..|].
  apply Forall_cons in HP as [Hlow HP]. apply Forall_cons in HP as [Hhigh HP].
  cbn [length Nat.ltb Nat.leb CountAndMakeRun].
  destruct (Z.ltb_spec (comparefn high low) 0) as [_|Hge].
  2:{ specialize (Hneg high low Hhigh Hlow). lia. }
  rewrite (extend_run_all_below _ P _ _ Hneg Hhigh HP). reflexivity.
Qed.

Lemma by_date_same (d : option Z) (a b : gmap string string) :
  date_of a = d -> date_of b = d -> by_date a b < 0.
Proof.
  unfold by_date. intros -> ->. destruct d as [t|]; simpl; [|lia].
  rewrite Z.ltb_irrefl. lia.
Qed.

(** X5: documents that cannot be told apart by date are listed in the
    reverse of the directory order.  When every listed document has
    the same time value [d], in particular when none has a date the
    engine can read, every comparison answers -1 and the listing is
    the directory order reversed. *)
Theorem undated_listing_is_reversed fs files ps (d : option Z) :
  readdirSync fs = Ok files ->
  getProjects fs None = Ok ps ->
  Forall (fun m => date_of m = d) ps ->
  (fun p : gmap string string => p !! "slug") <$> ps =
    reverse ((fun f => Some (replace_mdx_end f)) <$> files).
Proof.
  intros Hdir Hget Hundated.
  destruct (getProjects_inv _ _ _ Hget) as (files' & unsorted & Hdir' & Hmeta & Hps & _).
  rewrite Hdir in Hdir'. injection Hdir' as <-.
  specialize (Hps (or_introl eq_refl)). subst ps.
  rewrite (Array_sort_permutes by_date unsorted) in Hundated.
  rewrite (Array_sort_reverses by_date _ unsorted (by_date_same d) Hundated).
  rewrite fmap_reverse, (metadata_slugs _ _ _ Hmeta). reflexivity.
Qed.

(** *** X6 *)

Lemma Project_found fs slug p :
  getProjectBySlug fs slug = Ok (Some p) ->
  exists view, Project fs slug = Ok (Page view) /\ source view = content p /\
               heading view = metadata p !! "title".
Proof.
  intros Hget. unfold Project. rewrite Hget. simpl.
  eexists. split; [reflexivity|]. split; reflexivity.
Qed.

(** X6: in a directory whose names all end in [.mdx], every parameter
    [generateStaticParams] produces is the slug of a listed record, and
    the page for it is rendered, not a 404: [getProjectBySlug] finds the
    document, returns the very record the listing holds for it, and the
    page passes the document's body on as its source. *)
Theorem static_params_are_found fs files params (param : option string) :
  readdirSync fs = Ok files ->
  (forall f, f ∈ files -> exists base, f = base +:+ ".mdx") ->
  generateStaticParams fs = Ok params ->
  param ∈ params ->
  exists ps m slug body view,
    getProjects fs None = Ok ps /\ m ∈ ps /\
    param = Some slug /\ m !! "slug" = Some slug /\
    getProjectBySlug fs slug = Ok (Some {| metadata := m; content := body |}) /\
    Project fs slug = Ok (Page view) /\ source view = body.
Proof.
  intros Hdir Hmdx Hparams Hparam. unfold generateStaticParams in Hparams.
  destruct (getProjects fs None) as [ps|] eqn:Hget; simpl in Hparams; [|discriminate].
  injection Hparams as <-.
  apply list_elem_of_fmap in Hparam as (m & -> & Hm).
  destruct (getProjects_inv _ _ _ Hget) as (files' & unsorted & Hdir' & Hmeta & _ & Hsub).
  rewrite Hdir in Hdir'. injection Hdir' as <-.
  apply Hsub in Hm as Hm'.
  apply list_elem_of_lookup in Hm' as [i Hi].
  destruct (Forall2_lookup_r _ _ _ _ _ Hmeta Hi) as (f & Hf & Hfm).
  destruct (Hmdx f) as [base ->]; [eapply list_elem_of_lookup_2, Hf|].
  apply getProjectMetadata_inv in Hfm as (text & data & body & Hread & Hparse & ->).
  rewrite replace_mdx_end_append.
  pose proof (getProjectBySlug_found _ _ _ _ _ Hread Hparse) as Hfound.
  destruct (Project_found _ _ _ Hfound) as (view & Hpage & Hsource & _).
  exists ps, (<["slug" := base]> data), base, body, view.
  rewrite replace_mdx_end_append in Hm.
  split; [reflexivity|]. split; [exact Hm|].
  split; [apply lookup_insert_eq|]. split; [apply lookup_insert_eq|].
  split; [exact Hfound|]. split; [exact Hpage|exact Hsource].
Qed.

(** *** X7 *)

Lemma replace_mdx_end_other fileName :
  (forall base, fileName <> base +:+ ".mdx") -> replace_mdx_end fileName = fileName.
Proof.
  induction fileName as [|c rest IH]; intros Hother; [reflexivity|].
  cbn [replace_mdx_end].
  destruct (String.eqb_spec (String c rest) ".mdx") as [E|_].
  - exfalso. apply (Hother EmptyString). exact E.
  - f_equal. apply IH. intros base ->. apply (Hother (String c base)). reflexivity.
Qed.

Lemma find_entry_unlisted name es : name ∉ es.*1 -> find_entry name es = None.
Proof.
  intros Hnot. destruct (find_entry name es) as [e|] eqn:Hfind; [|reflexivity].
  exfalso. eapply Hnot, find_entry_listed, Hfind.
Qed.

(** X7: an entry whose name does not end in [.mdx] is listed under its
    whole name as slug, and that slug leads nowhere: the lookup reads
    [name.mdx], so unless such a file exists beside it,
    [getProjectBySlug] answers [null] and the page is a 404. *)
Theorem entry_without_mdx_is_listed_not_found fs files (fileName : string) m :
  readdirSync fs = Ok files ->
  (forall base, fileName <> base +:+ ".mdx") ->
  fileName +:+ ".mdx" ∉ files ->
  getProjectMetadata fs fileName = Ok m ->
  m !! "slug" = Some fileName /\
  getProjectBySlug fs fileName = Ok None /\
  Project fs fileName = Ok NotFound.
Proof.
  intros Hdir Hother Hnone Hmeta.
  apply getProjectMetadata_inv in Hmeta as (text & data & body & _ & _ & ->).
  rewrite (replace_mdx_end_other _ Hother).
  assert (Hget : getProjectBySlug fs fileName = Ok None).
  { apply (getProjectBySlug_read_fails fs fileName ENOENT).
    unfold readdirSync in Hdir. unfold readFileSync.
    destruct (rootDirectory fs) as [es|]; [|discriminate].
    injection Hdir as <-. rewrite (find_entry_unlisted _ _ Hnone). reflexivity. }
  split; [apply lookup_insert_eq|]. split; [exact Hget|].
  unfold Project. rewrite Hget. reflexivity.
Qed.

(** *** X19 *)

(** X19: in a directory of distinct names that all end in [.mdx], no
    two listed records share a slug. *)
Theorem listed_slugs_are_distinct fs files ps :
  readdirSync fs = Ok files ->
  NoDup files ->
  (forall f, f ∈ files -> exists base, f = base +:+ ".mdx") ->
  getProjects fs None = Ok ps ->
  NoDup ((fun p : gmap string string => p !! "slug") <$> ps).
Proof.
  intros Hdir Hnodup Hmdx Hget.
  destruct (getProjects_slugs _ _ _ Hdir Hget) as [_ Hperm].
  rewrite Hperm. clear Hperm Hget Hdir.
  induction Hnodup as [|f files Hf _ IH]; [constructor|].
  cbn [fmap list_fmap]. constructor.
  - intros Hin. apply list_elem_of_fmap in Hin as (g & Hg & Hgin).
    injection Hg as Hg.
    destruct (Hmdx f) as [base ->]; [apply list_elem_of_here|].
    destruct (Hmdx g) as [base' ->]; [apply list_elem_of_further, Hgin|].
    rewrite !replace_mdx_end_append in Hg. subst base'. contradiction.
  - apply IH. intros g Hg. apply Hmdx, list_elem_of_further, Hg.
Qed.

End ListingFacts.


Section ListingExamples.
Import Js Projects ProjectPage.

Lemma getProjects_lists_every_entry_witness :
  exists ps, getProjects Fixtures.four_projects None = Ok ps /\ length ps = 4%nat.
Proof.
  destruct (getProjects Fixtures.four_projects None) as [ps|e] eqn:Hget;
    [|vm_compute in Hget; discriminate Hget].
  exists ps. split; [reflexivity|].
  apply (getProjects_lists_every_entry Fixtures.four_projects
           ["alpha.mdx"; "beta.mdx"; "delta.mdx"; "gamma.mdx"] ps eq_refl Hget).
Defined.

Lemma getProjects_fails_as_a_whole_witness :
  getProjects Samples.one_locked (Some 1) = Throw EACCES.
Proof.
  apply (getProjects_fails_as_a_whole Samples.one_locked
           ["alpha.mdx"] "locked.mdx" ["zeta.mdx"] EACCES (Some 1)).
  - reflexivity.
  - constructor; [|constructor].
    exists (<["slug" := "alpha"]> (Frontmatter.matter (Fixtures.dated "Alpha" "2024-03-01")).1).
    vm_compute. reflexivity.
  - reflexivity.
Defined.

Lemma positive_limit_takes_a_prefix_witness :
  exists all, getProjects Fixtures.four_projects None = Ok all /\
              getProjects Fixtures.four_projects (Some 2) = Ok (take 2 all) /\
              length (take 2 all) = 2%nat.
Proof.
  destruct (getProjects Fixtures.four_projects None) as [all|e] eqn:Hget;
    [|vm_compute in Hget; discriminate Hget].
  exists all. split; [reflexivity|].
  assert (Hlen : match getProjects Fixtures.four_projects None with
                 | Ok l => length l
                 | Throw _ => 0%nat
                 end = 4%nat) by (vm_compute; reflexivity).
  rewrite Hget in Hlen.
  destruct (positive_limit_takes_a_prefix Fixtures.four_projects 2 all ltac:(lia) Hget)
    as (Htop & Hcount & _).
  change (Z.to_nat 2) with 2%nat in Htop, Hcount.
  split; [exact Htop|]. rewrite Hcount, Hlen. reflexivity.
Defined.

Lemma getProjects_negative_limit_witness :
  exists all, getProjects Fixtures.four_projects None = Ok all /\
              getProjects Fixtures.four_projects (Some (-1)) =
                Ok (take (length all - 1) all).
Proof.
  destruct (getProjects Fixtures.four_projects None) as [all|e] eqn:Hget;
    [|vm_compute in Hget; discriminate Hget].
  exists all. split; [reflexivity|].
  apply (getProjects_negative_limit Fixtures.four_projects 1 all ltac:(lia) Hget).
Defined.

Lemma undated_listing_is_reversed_witness :
  exists ps, getProjects Samples.no_dates None = Ok ps /\
             Fixtures.slugs ps = [Some "third"; Some "second"; Some "first"].
Proof.
  destruct (getProjects Samples.no_dates None) as [ps|e] eqn:Hget;
    [|vm_compute in Hget; discriminate Hget].
  exists ps. split; [reflexivity|].
  assert (Hnone : match getProjects Samples.no_dates None with
                  | Ok l => forallb (fun m => bool_decide (date_of m = None)) l
                  | Throw _ => false
                  end = true) by (vm_compute; reflexivity).
  rewrite Hget in Hnone.
  apply (undated_listing_is_reversed Samples.no_dates
           ["first.mdx"; "second.mdx"; "third.mdx"] ps None eq_refl Hget).
  apply Forall_forall. intros m Hm.
  rewrite forallb_forall in Hnone.
  apply list_elem_of_In in Hm. apply Hnone in Hm.
  apply bool_decide_eq_true in Hm. exact Hm.
Defined.

Lemma static_params_are_found_witness :
  exists view, Project Fixtures.two_projects "cryptoverse" = Ok (Page view) /\
               source view = "# Introducing My Crypto App".
Proof.
  destruct (generateStaticParams Fixtures.two_projects) as [params|e] eqn:Hparams;
    [|vm_compute in Hparams; discriminate Hparams].
  assert (Hrun : match generateStaticParams Fixtures.two_projects with
                 | Ok l => l
                 | Throw _ => []
                 end = [Some "undated"; Some "cryptoverse"]) by (vm_compute; reflexivity).
  rewrite Hparams in Hrun. subst params.
  destruct (static_params_are_found Fixtures.two_projects
              ["cryptoverse.mdx"; "undated.mdx"] [Some "undated"; Some "cryptoverse"]
              (Some "cryptoverse") eq_refl)
    as (ps & m & slug & body & view & _ & _ & Hslug & _ & Hget & Hpage & Hsource).
  - intros f Hf. apply list_elem_of_In in Hf. simpl in Hf.
    destruct Hf as [<-|[<-|[]]]; [exists "cryptoverse"|exists "undated"]; reflexivity.
  - exact Hparams.
  - apply list_elem_of_further, list_elem_of_here.
  - injection Hslug as <-. exists view. split; [exact Hpage|].
    rewrite Hsource. vm_compute in Hget. injection Hget as _ <-. reflexivity.
Defined.

Lemma entry_without_mdx_is_listed_not_found_witness :
  exists m, getProjectMetadata Samples.with_notes "notes.txt" = Ok m /\
            m !! "slug" = Some "notes.txt" /\
            Project Samples.with_notes "notes.txt" = Ok NotFound.
Proof.
  destruct (getProjectMetadata Samples.with_notes "notes.txt") as [m|e] eqn:Hmeta;
    [|vm_compute in Hmeta; discriminate Hmeta].
  exists m. split; [reflexivity|].
  destruct (entry_without_mdx_is_listed_not_found Samples.with_notes
              ["alpha.mdx"; "notes.txt"] "notes.txt" m eq_refl)
    as (Hslug & _ & Hpage).
  - intros base E. pose proof (f_equal replace_mdx_end E) as E'.
    rewrite replace_mdx_end_append in E'. vm_compute in E'. subst base.
    discriminate E.
  - intros Hin. apply list_elem_of_In in Hin. simpl in Hin.
    destruct Hin as [E|[E|[]]]; discriminate E.
  - exact Hmeta.
  - split; [exact Hslug|exact Hpage].
Defined.

Lemma listed_slugs_are_distinct_witness :
  exists ps, getProjects Fixtures.four_projects None = Ok ps /\
             NoDup (Fixtures.slugs ps).
Proof.
  destruct (getProjects Fixtures.four_projects None) as [ps|e] eqn:Hget;
    [|vm_compute in Hget; discriminate Hget].
  exists ps. split; [reflexivity|].
  apply (listed_slugs_are_distinct Fixtures.four_projects
           ["alpha.mdx"; "beta.mdx"; "delta.mdx"; "gamma.mdx"] ps eq_refl).
  - repeat (constructor;
              [intros Hin; apply list_elem_of_In in Hin; simpl in Hin;
               intuition discriminate|]).
    constructor.
  - intros f Hf. apply list_elem_of_In in Hf. simpl in Hf.
    destruct Hf as [<-|[<-|[<-|[<-|[]]]]];
      [exists "alpha"|exists "beta"|exists "delta"|exists "gamma"]; reflexivity.
  - exact Hget.
Defined.

End ListingExamples.

(** ** More on the quiz *)

Section QuizInvariants.
Import Js QuizComponent QuizInvariant AnswerButtonView.

Implicit Types (questions : list QuizQuestion) (st : State).

Lemma shown_result_is_answer st :
  showResult st = true ->
  (currentQuestion st < length (userAnswers st))%nat ->
  answered st (currentQuestion st).
Proof.
  unfold showResult, selectedAnswer, answered. intros Hshow Hlt.
  destruct (userAnswers st !! currentQuestion st) as [[a|]|] eqn:E.
  - exists a. reflexivity.
  - discriminate Hshow.
  - apply lookup_ge_None in E. lia.
Qed.

Lemma initial_invariant q questions : invariant (q :: questions) (initial (q :: questions)).
Proof.
  unfold invariant. simpl. split; [|split; [|split]].
  - rewrite length_replicate. reflexivity.
  - lia.
  - intros i Hi. lia.
  - discriminate.
Qed.

Lemma handleAnswer_invariant questions st a :
  invariant questions st -> invariant questions (handleAnswer a st).
Proof.
  intros (Hlen & Hcur & Hbefore & Hdone). unfold handleAnswer.
  destruct (showResult st) eqn:Hshow;
    [exact (conj Hlen (conj Hcur (conj Hbefore Hdone)))|].
  assert (Hnot : isQuizCompleted st = false).
  { destruct (isQuizCompleted st) eqn:E; [|reflexivity].
    destruct (Hdone eq_refl) as [_ [b Hb]].
    unfold showResult, selectedAnswer in Hshow. rewrite Hb in Hshow. discriminate. }
  unfold invariant, answered. simpl. split; [|split; [|split]].
  - rewrite length_insert. exact Hlen.
  - exact Hcur.
  - intros i Hi. destruct (Hbefore i Hi) as [b Hb]. exists b.
    rewrite list_lookup_insert_ne by lia. exact Hb.
  - rewrite Hnot. discriminate.
Qed.

Lemma nextQuestion_invariant questions st :
  invariant questions st -> showResult st = true ->
  invariant questions (nextQuestion questions st).
Proof.
  intros (Hlen & Hcur & Hbefore & Hdone) Hshow.
  assert (Hans : answered st (currentQuestion st)).
  { apply shown_result_is_answer; [exact Hshow|lia]. }
  unfold nextQuestion, isLastQuestion.
  destruct (Z.eqb_spec (Z.of_nat (currentQuestion st)) (Z.of_nat (length questions) - 1))
    as [Hlast|Hmore]; unfold invariant; simpl; (split; [exact Hlen|]).
  - split; [exact Hcur|]. split; [exact Hbefore|].
    intros _. split; [lia|exact Hans].
  - split; [lia|]. split.
    + intros i Hi. destruct (Nat.eq_dec i (currentQuestion st)) as [->|Hne].
      * exact Hans.
      * apply Hbefore. lia.
    + intros Hc. destruct (Hdone Hc) as [Hl _]. lia.
Qed.

Lemma dispatch_completed questions st ev :
  isQuizCompleted st = true -> dispatch questions st ev = st.
Proof.
  intros Hc. unfold dispatch, Quiz. rewrite Hc.
  destruct (score questions (userAnswers st)); reflexivity.
Qed.

Lemma dispatch_invariant questions st ev :
  invariant questions st -> invariant questions (dispatch questions st ev).
Proof.
  intros Hinv. destruct (isQuizCompleted st) eqn:Hc.
  { rewrite (dispatch_completed _ _ _ Hc). exact Hinv. }
  unfold dispatch, Quiz. rewrite Hc.
  destruct (questions !! currentQuestion st) as [q|]; [|exact Hinv].
  destruct ev as [i|].
  - destruct (imap (answerButton st q) (options q) !! i) as [b|]; [|exact Hinv].
    destruct (disabled b); [exact Hinv|]. apply handleAnswer_invariant, Hinv.
  - destruct (showResult st) eqn:Hshow; [|exact Hinv].
    apply nextQuestion_invariant; assumption.
Qed.

Lemma run_invariant q questions evs :
  invariant (q :: questions) (run (q :: questions) evs).
Proof.
  unfold run. pose proof (initial_invariant q questions) as Hinit.
  revert Hinit. generalize (initial (q :: questions)).
  induction evs as [|ev evs IH]; intros st Hst; simpl; [exact Hst|].
  apply IH, dispatch_invariant, Hst.
Qed.

Lemma run_app questions evs more :
  run questions (evs ++ more) = foldl (dispatch questions) (run questions evs) more.
Proof. unfold run. apply foldl_app. Qed.

(** *** X8 *)

(** X8: from a quiz with at least one question, every state a
    sequence of clicks reaches has one answer slot per question, stands
    on an existing question with all earlier questions answered, and
    renders a card: the component never throws once it has mounted. *)
Theorem quiz_keeps_its_invariant questions (evs : list Event) :
  questions <> [] ->
  invariant questions (run questions evs) /\
  exists view, Quiz questions (run questions evs) = Ok view.
Proof.
  intros Hne. destruct questions as [|q questions]; [contradiction|].
  pose proof (run_invariant q questions evs) as Hinv.
  split; [exact Hinv|].
  destruct Hinv as (Hlen & Hcur & _). unfold Quiz.
  destruct (isQuizCompleted _).
  - rewrite (score_count _ _ Hlen). simpl. eexists. reflexivity.
  - destruct (_ !! currentQuestion _) as [qc|] eqn:Hq.
    + eexists. reflexivity.
    + apply lookup_ge_None in Hq. lia.
Qed.

(** *** X9 *)

(** X9: the quiz completes only with every question answered, and
    [Completed] is terminal: no further click changes the state. *)
Theorem completed_quiz_is_answered_and_final questions (evs more : list Event) :
  questions <> [] ->
  isQuizCompleted (run questions evs) = true ->
  (forall i, (i < length questions)%nat -> answered (run questions evs) i) /\
  run questions (evs ++ more) = run questions evs.
Proof.
  intros Hne Hc. destruct questions as [|q questions]; [contradiction|].
  destruct (run_invariant q questions evs) as (_ & _ & Hbefore & Hdone).
  destruct (Hdone Hc) as [Hlast Hans]. split.
  - intros i Hi.
    destruct (Nat.eq_dec i (currentQuestion (run (q :: questions) evs))) as [->|Hi'].
    + exact Hans.
    + apply Hbefore. lia.
  - rewrite run_app. generalize dependent (run (q :: questions) evs). intros st Hc _ _ _ _.
    induction more as [|ev more IH]; simpl; [reflexivity|].
    rewrite (dispatch_completed _ _ _ Hc). exact IH.
Qed.

(** *** X10 *)

Lemma handleAnswer_keeps_answers st a i b :
  userAnswers st !! i = Some (Some b) ->
  userAnswers (handleAnswer a st) !! i = Some (Some b).
Proof.
  intros Hi. unfold handleAnswer.
  destruct (showResult st) eqn:Hshow; [exact Hi|]. simpl.
  rewrite list_lookup_insert_ne; [exact Hi|].
  intros <-. unfold showResult, selectedAnswer in Hshow.
  rewrite Hi in Hshow. discriminate.
Qed.

Lemma dispatch_keeps_answers questions st ev i b :
  userAnswers st !! i = Some (Some b) ->
  userAnswers (dispatch questions st ev) !! i = Some (Some b).
Proof.
  intros Hi. unfold dispatch.
  destruct (Quiz questions st) as [[|text buttons feedback]|]; try exact Hi.
  destruct ev as [k|].
  - destruct (buttons !! k) as [btn|]; [|exact Hi].
    destruct (disabled btn); [exact Hi|]. apply handleAnswer_keeps_answers, Hi.
  - destruct feedback; [|exact Hi].
    unfold nextQuestion. destruct (isLastQuestion questions st); exact Hi.
Qed.

(** X10: an answer is given once.  From any state, whatever is clicked
    afterwards, a question that has its answer keeps that answer. *)
Theorem recorded_answer_never_changes questions st (evs : list Event) (i : nat) (a : Z) :
  userAnswers st !! i = Some (Some a) ->
  userAnswers (foldl (dispatch questions) st evs) !! i = Some (Some a).
Proof.
  revert st. induction evs as [|ev evs IH]; intros st Hi; simpl; [exact Hi|].
  apply IH, dispatch_keeps_answers, Hi.
Qed.

(** *** X11 *)

Lemma score_from_bounds questions index answers total s :
  score_from questions index answers total = Ok s ->
  total <= s <= total + Z.of_nat (length answers).
Proof.
  revert index total. induction answers as [|answer rest IH]; intros index total; simpl.
  - intros E. injection E as <-. lia.
  - destruct (questions !! index) as [q|]; [|discriminate].
    intros E. apply IH in E.
    destruct (answer_is answer (correctAnswer q)); lia.
Qed.

(** X11: whenever the score can be computed it lies between 0 and the
    number of answer slots, and with fewer questions than answer slots
    computing it throws. *)
Theorem score_is_bounded questions (answers : list (option Z)) (s : Z) :
  score questions answers = Ok s ->
  0 <= s <= Z.of_nat (length answers) /\
  (length answers <= length questions)%nat.
Proof.
  intros Hs. split; [apply (score_from_bounds _ _ _ _ _ Hs)|].
  unfold score in Hs. revert Hs. generalize 0 at 1. generalize 0%nat as index.
  assert (Hgen : forall rest index total,
            score_from questions index rest total = Ok s ->
            (index + length rest <= Nat.max index (length questions))%nat).
  { induction rest as [|answer rest IH]; intros index total; simpl; [lia|].
    destruct (questions !! index) as [q|] eqn:Hq; [|discriminate].
    apply lookup_lt_Some in Hq. intros E. apply IH in E. lia. }
  intros index total E. apply Hgen in E. destruct answers; simpl in *; lia.
Qed.

(** *** X12 *)

(** X12: after a wrong answer the card says "Incorrect. Try again!",
    and there is no trying again: every option button is disabled and a
    click on any option leaves the state as it is. *)
Theorem wrong_answer_cannot_be_retried questions st (q : QuizQuestion) (a : Z) (i : nat) :
  isQuizCompleted st = false ->
  questions !! currentQuestion st = Some q ->
  selectedAnswer st = Some (Some a) ->
  a <> correctAnswer q ->
  exists buttons fb,
    Quiz questions st = Ok (QuestionCard (question q) buttons (Some fb)) /\
    verdict fb = "Incorrect. Try again!" /\
    Forall (fun b => disabled b = true) buttons /\
    dispatch questions st (ClickOption i) = st.
Proof.
  intros Hrun Hq Hsel Hwrong.
  pose proof (showResult_answered _ _ Hsel) as Hshow.
  unfold Quiz. rewrite Hrun, Hq, Hshow, Hsel.
  destruct (Z.eqb_spec a (correctAnswer q)) as [E|_]; [contradiction|].
  eexists _, _. split; [reflexivity|]. split; [reflexivity|]. split.
  - apply Forall_forall. intros b Hb. apply list_elem_of_lookup in Hb as [k Hk].
    destruct (button_disabled st q _ k b eq_refl Hk) as [-> _]. exact Hshow.
  - apply dispatch_option_answered, Hshow.
Qed.

(** *** X13 *)

(** X13: only the chosen option is marked.  Before an answer every
    button of the card has the variant [outline]; after the answer [a]
    the button of option [a] is [success] when [a] is the correct
    index and [destructive] when it is not, and every other button,
    the one of the correct option included, stays [outline]. *)
Theorem only_the_chosen_option_is_marked questions st (q : QuizQuestion)
    text buttons feedback (i : nat) (b : AnswerButton) :
  Quiz questions st = Ok (QuestionCard text buttons feedback) ->
  questions !! currentQuestion st = Some q ->
  buttons !! i = Some b ->
  (selectedAnswer st = Some None -> variant b = "outline" /\ icon b = None) /\
  (forall a, selectedAnswer st = Some (Some a) ->
     variant b =
       (if Z.of_nat i =? a
        then (if a =? correctAnswer q then "success" else "destructive")
        else "outline") /\
     (Z.of_nat i <> a -> icon b = None)).
Proof.
  unfold Quiz. intros Hcard Hq Hb.
  destruct (isQuizCompleted st).
  { destruct (score questions (userAnswers st)); discriminate Hcard. }
  rewrite Hq in Hcard. injection Hcard as _ <- _.
  rewrite list_lookup_imap in Hb.
  destruct (options q !! i) as [o|]; simpl in Hb; [|discriminate].
  injection Hb as <-. unfold variant, icon, answerButton. simpl. split.
  - intros Hsel. rewrite Hsel. split; reflexivity.
  - intros a Hsel. rewrite (showResult_answered _ _ Hsel), Hsel.
    rewrite (Z.eqb_sym a (Z.of_nat i)).
    destruct (Z.eqb_spec (Z.of_nat i) a) as [E|Hne].
    + rewrite E. split; [reflexivity|]. intros Hne. contradiction.
    + split; reflexivity.
Qed.

(** *** X20 *)

(** X20: the label of the advance button tells what it does: clicking
    it completes the quiz exactly when it reads "Finish Quiz", and
    otherwise it reads "Next Question" and moves one question on. *)
Theorem advance_label_matches_its_action questions st text buttons (fb : Feedback) :
  Quiz questions st = Ok (QuestionCard text buttons (Some fb)) ->
  (nextLabel fb = "Finish Quiz" <->
   isQuizCompleted (dispatch questions st ClickNext) = true) /\
  (nextLabel fb = "Next Question" <->
   currentQuestion (dispatch questions st ClickNext) = S (currentQuestion st)).
Proof.
  intros Hcard. unfold dispatch. rewrite Hcard. unfold Quiz in Hcard.
  destruct (isQuizCompleted st) eqn:Hc.
  { destruct (score questions (userAnswers st)); discriminate Hcard. }
  destruct (questions !! currentQuestion st) as [q|]; [|discriminate Hcard].
  destruct (showResult st); [|discriminate Hcard].
  injection Hcard as _ _ <-. unfold nextQuestion. simpl.
  destruct (isLastQuestion questions st); simpl; rewrite ?Hc;
    split; split; intros E; try reflexivity; try discriminate E; lia.
Qed.

End QuizInvariants.

Section QuizExamples.
Import Js QuizComponent QuizInvariant AnswerButtonView.

Lemma quiz_keeps_its_invariant_witness :
  exists view,
    Quiz Fixtures.two_questions
      (run Fixtures.two_questions [ClickNext; ClickOption 3; ClickOption 0; ClickNext]) =
    Ok view.
Proof.
  apply (quiz_keeps_its_invariant Fixtures.two_questions
           [ClickNext; ClickOption 3; ClickOption 0; ClickNext]).
  discriminate.
Defined.

Lemma completed_quiz_is_answered_and_final_witness :
  run Fixtures.two_questions
    ([ClickOption 0; ClickNext; ClickOption 1; ClickNext] ++ [ClickOption 2; ClickNext]) =
  run Fixtures.two_questions [ClickOption 0; ClickNext; ClickOption 1; ClickNext].
Proof.
  apply (completed_quiz_is_answered_and_final Fixtures.two_questions
           [ClickOption 0; ClickNext; ClickOption 1; ClickNext]
           [ClickOption 2; ClickNext]).
  - discriminate.
  - reflexivity.
Defined.

Lemma recorded_answer_never_changes_witness :
  userAnswers (run Fixtures.two_questions [ClickOption 1; ClickOption 0; ClickNext; ClickOption 2])
    !! 0%nat = Some (Some 1).
Proof.
  apply (recorded_answer_never_changes Fixtures.two_questions
           (run Fixtures.two_questions [ClickOption 1])
           [ClickOption 0; ClickNext; ClickOption 2] 0 1).
  reflexivity.
Defined.

Lemma score_is_bounded_witness :
  score Fixtures.two_questions [Some 0; Some 1] = Ok 1 /\ 0 <= 1 <= 2.
Proof.
  split; [reflexivity|].
  apply (score_is_bounded Fixtures.two_questions [Some 0; Some 1] 1).
  reflexivity.
Defined.

Lemma wrong_answer_cannot_be_retried_witness :
  let st := run Fixtures.two_questions [ClickOption 1] in
  dispatch Fixtures.two_questions st (ClickOption 0) = st.
Proof.
  intros st.
  destruct (wrong_answer_cannot_be_retried Fixtures.two_questions st
              Fixtures.first_question 1 0 eq_refl eq_refl eq_refl)
    as (buttons & fb & _ & _ & _ & Hclick).
  - discriminate.
  - exact Hclick.
Defined.

Lemma only_the_chosen_option_is_marked_witness :
  let st := run Fixtures.two_questions [ClickOption 1] in
  exists wrong right,
    imap (answerButton st Fixtures.first_question)
      (options Fixtures.first_question) !! 1%nat = Some wrong /\
    imap (answerButton st Fixtures.first_question)
      (options Fixtures.first_question) !! 0%nat = Some right /\
    variant wrong = "destructive" /\ variant right = "outline".
Proof.
  intros st.
  eexists _, _. split; [reflexivity|]. split; [reflexivity|].
  split.
  - destruct (only_the_chosen_option_is_marked Fixtures.two_questions st
                Fixtures.first_question
                (question Fixtures.first_question)
                (imap (answerButton st Fixtures.first_question)
                   (options Fixtures.first_question))
                (Some {| verdict := "Incorrect. Try again!"; nextLabel := "Next Question" |})
                1 _ eq_refl eq_refl eq_refl)
      as [_ Hafter].
    destruct (Hafter 1 eq_refl) as [Hvariant _]. exact Hvariant.
  - reflexivity.
Defined.

Lemma advance_label_matches_its_action_witness :
  let st := run Fixtures.two_questions [ClickOption 0; ClickNext; ClickOption 2] in
  isQuizCompleted (dispatch Fixtures.two_questions st ClickNext) = true.
Proof.
  intros st.
  destruct (Quiz Fixtures.two_questions st) as [[|text buttons [fb|]]|] eqn:Hcard;
    try (vm_compute in Hcard; discriminate Hcard).
  apply (advance_label_matches_its_action Fixtures.two_questions st text buttons fb Hcard).
  vm_compute in Hcard. injection Hcard as _ _ <-. reflexivity.
Defined.

End QuizExamples.

(** ** The component registry *)

Section RegistryFacts.
Import MdxContent.

Lemma resolve_union (props : Props) (name : string) :
  resolve props name = (default ∅ (props_components props) ∪ components) !! name.
Proof. reflexivity. Qed.

(** X14: a name resolves to the caller's component when the caller
    brings one under that name, and to the registry's own otherwise;
    so every component of the registry stays available whatever the
    caller passes, and the source goes through unchanged. *)
Theorem caller_components_override_the_registry
    (props : Props) (name : string) (builtin : Component) :
  components !! name = Some builtin ->
  resolve props name =
    Some (default builtin (default ∅ (props_components props) !! name)) /\
  (forall other, components !! other = None ->
     resolve props other = default ∅ (props_components props) !! other) /\
  source (MDXContent props) = source props.
Proof.
  intros Hbuiltin. split; [|split; [|reflexivity]].
  - rewrite resolve_union, lookup_union, Hbuiltin.
    destruct (default ∅ (props_components props) !! name); reflexivity.
  - intros other Hother. rewrite resolve_union, lookup_union, Hother.
    destruct (default ∅ (props_components props) !! other); reflexivity.
Qed.

Lemma caller_components_override_the_registry_witness :
  resolve {| source := "# Hi"; props_components := None |} "Quiz" = Some Quiz /\
  resolve {| source := "# Hi";
             props_components := Some {["Quiz" := Custom "MyQuiz"]} |} "Quiz" =
    Some (Custom "MyQuiz").
Proof.
  destruct (caller_components_override_the_registry
              {| source := "# Hi"; props_components := None |} "Quiz" Quiz
              ltac:(vm_compute; reflexivity)) as [Hdefault _].
  destruct (caller_components_override_the_registry
              {| source := "# Hi";
                 props_components := Some {["Quiz" := Custom "MyQuiz"]} |} "Quiz" Quiz
              ltac:(vm_compute; reflexivity)) as [Hown _].
  split; [exact Hdefault|exact Hown].
Defined.

End RegistryFacts.

(** ** The alert *)

Section AlertFacts.
Import AlertComponent.

(** X15: the colours and the icon of an alert always belong to one and
    the same severity, and every [type] that is not [success],
    [warning] or [error] (a type left out, a misspelt one) is shown as
    [info]. *)
Theorem alert_falls_back_to_info (type : option string) :
  (exists severity, (severity, (getAlertStyle type, getIcon type)) ∈ severities) /\
  (type <> Some "success" -> type <> Some "warning" -> type <> Some "error" ->
   getAlertStyle type = "bg-blue-100 border-blue-500 text-blue-700" /\
   getIcon type = InfoCircledIcon).
Proof.
  unfold getAlertStyle, getIcon, severities.
  destruct type as [t|]; cbn [default from_option id].
  2:{ split; [|intros _ _ _; split; reflexivity].
      exists "info". apply list_elem_of_here. }
  destruct (String.eqb_spec t "success") as [->|H1].
  { split; [|intros E; contradiction].
    exists "success". apply list_elem_of_further, list_elem_of_here. }
  destruct (String.eqb_spec t "warning") as [->|H2].
  { split; [|intros _ E; contradiction].
    exists "warning". do 2 apply list_elem_of_further. apply list_elem_of_here. }
  destruct (String.eqb_spec t "error") as [->|H3].
  { split; [|intros _ _ E; contradiction].
    exists "error". do 3 apply list_elem_of_further. apply list_elem_of_here. }
  split; [|intros _ _ _; split; reflexivity].
  exists "info". apply list_elem_of_here.
Qed.

Lemma alert_falls_back_to_info_witness :
  getAlertStyle (Some "danger") = "bg-blue-100 border-blue-500 text-blue-700" /\
  getIcon (Some "danger") = InfoCircledIcon.
Proof.
  apply (alert_falls_back_to_info (Some "danger")); discriminate.
Defined.

End AlertFacts.

(** ** The search box *)

Section SearchFacts.
Import PostsWithSearch.
Context (toLowerCase : string -> string).






End SearchFacts.

(** ** The contact form's action *)

Section ActionFacts.
Import Actions.
Context {FormErrors SendData SendError Thrown : Type}.
Context (safeParse : ContactFormInputs -> @Validation FormErrors).
Context (send : Email -> @Response SendData SendError Thrown).

(** X17: the action answers [{ success: true }] exactly when the input
    passes the schema and the service resolves with [data] and without
    [error]; a reply that carries an [error], or no [data], is a
    failure, and so is a rejection, whose value is handed back. *)
Theorem sendEmail_succeeds_only_on_a_clean_reply (data : ContactFormInputs) :
  ((sendEmail safeParse send data).1 = Success <->
   exists parsed d, safeParse data = Valid parsed /\
                    send (email_of parsed) = Resolved (Some d) None) /\
  (forall parsed value, safeParse data = Valid parsed ->
     send (email_of parsed) = Rejected value ->
     (sendEmail safeParse send data).1 = CaughtError (FromService value)) /\
  (forall parsed d e, safeParse data = Valid parsed ->
     send (email_of parsed) = Resolved d (Some e) ->
     (sendEmail safeParse send data).1 = CaughtError FailedToSendEmail).
Proof.
  unfold sendEmail. split; [|split].
  - destruct (safeParse data) as [parsed|formatted]; simpl.
    + destruct (send (email_of parsed)) as [[d|] [e|]|value] eqn:Hsend; simpl; split;
        try discriminate;
        try (intros (parsed' & d' & Hp & Hs); injection Hp as <-;
             rewrite Hsend in Hs; discriminate Hs).
      * intros _. exists parsed, d. split; [reflexivity|exact Hsend].
      * intros _. reflexivity.
    + split; [discriminate|]. intros (parsed & d & Hp & _). discriminate Hp.
  - intros parsed value -> ->. reflexivity.
  - intros parsed d e -> ->. destruct d; reflexivity.
Qed.


End ActionFacts.

Section MoreExamples.
Import PostsWithSearch Actions.


Lemma sendEmail_succeeds_only_on_a_clean_reply_witness :
  (sendEmail Samples.needs_email Samples.accepts Samples.visitor).1 = Success.
Proof.
  apply (sendEmail_succeeds_only_on_a_clean_reply
           Samples.needs_email Samples.accepts Samples.visitor).
  exists Samples.visitor, "queued". split; reflexivity.
Defined.


End MoreExamples.
